(** * Security camera: motion pipeline of [app.py]

    A shallow embedding of the frame acquisition, motion detection, event
    log and settings code of [app.py], and the properties of its
    specification that can be decided on it.

    Conventions.
    - numpy arrays are lists of rows; a colour frame holds (B, G, R) pixels,
      a single-channel image holds integers;
    - Python floats ([time.time()], [cv2.contourArea]) are exact rationals;
    - arrays live in a store ([heap]) and Python variables hold locations,
      so that in-place drawing and [.copy()] are told apart;
    - what the process observes from outside (camera reads, clocks, the
      outcome of a file write) is an explicit input of each loop iteration;
    - the OpenCV routines whose algorithm is not part of this repository
      (colour weights, contour extraction, contour area, drawing, JPEG
      encoding) are the fields of a record [Cv2]. *)

From stdpp Require Import base list strings gmap.
From Stdlib Require Import ZArith QArith Lqa Lia.

Open Scope Z_scope.

(** ** Images *)

Definition Pixel : Type := Z * Z * Z.
Definition Frame : Type := list (list Pixel).
Definition Gray : Type := list (list Z).
Definition Point : Type := Z * Z.
Definition Contour : Type := list Point.
Definition Bytes : Type := list Byte.byte.

(** The part of the [cv2] module that the program calls and whose
    implementation lives in OpenCV. *)
Record Cv2 : Type := {
  (** per-pixel weights of [cv2.COLOR_BGR2GRAY] *)
  luma : Pixel -> Z;
  (** [cv2.findContours(img, cv2.RETR_EXTERNAL, cv2.CHAIN_APPROX_SIMPLE)[0]] *)
  findContours : Gray -> list Contour;
  (** [cv2.contourArea] *)
  contourArea : Contour -> Q;
  (** [cv2.drawContours(img, contours, idx, color, thickness)], as the new
      content of [img] *)
  drawContours : Frame -> list Contour -> Z -> Pixel -> Z -> Frame;
  (** [cv2.putText(img, text, org, FONT_HERSHEY_SIMPLEX, scale, color,
      thickness)], as the new content of [img] *)
  putText : Frame -> string -> Point -> Q -> Pixel -> Z -> Frame;
  (** [cv2.imencode(".jpg", img)] *)
  imencode_jpg : Frame -> bool * Bytes
}.

(** A mask without any set pixel. *)
Definition blank (g : Gray) : Prop := Forall (Forall (eq 0)) g.

(** What OpenCV guarantees about contour extraction and is used below: a
    mask without set pixels has no contour. *)
Definition findContours_blank (cv : Cv2) : Prop :=
  forall g : Gray, blank g -> findContours cv g = [].

(** Value of the pixel in row [r], column [c]; 0 outside of the image. *)
Definition px (g : Gray) (r c : Z) : Z :=
  if (r <? 0) || (c <? 0) then 0
  else default 0 (row ← g !! Z.to_nat r; row !! Z.to_nat c).

(** [cv2.cvtColor(frame, cv2.COLOR_BGR2GRAY)] *)
Definition cvtColor_BGR2GRAY (cv : Cv2) (f : Frame) : Gray :=
  map (map (luma cv)) f.

(** [cv2.absdiff] on single-channel 8-bit images. The program only
    compares frames of one capture device, which have one shape. *)
Definition absdiff (a b : Gray) : Gray :=
  zip_with (zip_with (fun x y => Z.abs (x - y))) a b.

(** [cv2.threshold(src, thresh, maxval, cv2.THRESH_BINARY)[1]] *)
Definition threshold_binary (src : Gray) (thresh maxval : Z) : Gray :=
  map (map (fun v => if thresh <? v then maxval else 0)) src.

(** Offsets of the 3x3 rectangular structuring element that [cv2.dilate]
    uses for [kernel=None], anchored at its centre. *)
Definition kernel3 : list (Z * Z) :=
  [(-1,-1); (-1,0); (-1,1); (0,-1); (0,0); (0,1); (1,-1); (1,0); (1,1)].

(** One dilation pass: each pixel becomes the maximum over its
    neighbourhood; pixels outside of the image do not contribute. *)
Definition dilate3 (g : Gray) : Gray :=
  imap (fun r row =>
    imap (fun c _ =>
      foldr Z.max 0
        (map (fun d => px g (Z.of_nat r + d.1) (Z.of_nat c + d.2)) kernel3))
      row) g.

(** [cv2.dilate(src, None, iterations=n)] *)
Definition dilate (src : Gray) (iterations : nat) : Gray :=
  Nat.iter iterations dilate3 src.

(** Comparison of Python floats, [a > b]. *)
Definition Qgtb (a b : Q) : bool := negb (Qle_bool a b).

(** [sum([...])]: Python starts from 0 and adds from the left. *)
Definition py_sum (xs : list Q) : Q := foldl Qplus 0%Q xs.

(** ** Motion detector *)

(** [motion_threshold = 5000], a module-level name that no function
    assigns. *)
Definition motion_threshold : Q := 5000%Q.

(** [detect_motion(frame1, frame2)] *)
Definition detect_motion (cv : Cv2) (frame1 frame2 : Frame)
  : bool * Gray * list Contour :=
  let gray1 := cvtColor_BGR2GRAY cv frame1 in
  let gray2 := cvtColor_BGR2GRAY cv frame2 in
  let frame_diff := absdiff gray1 gray2 in
  let thresh := threshold_binary frame_diff 25 255 in
  let thresh := dilate thresh 2 in
  let contours := findContours cv thresh in
  let total_area := py_sum (map (contourArea cv) contours) in
  (Qgtb total_area motion_threshold, thresh, contours).

(** The value of the local [total_area], recomputed from the contours that
    [detect_motion] returns. *)
Definition total_area (cv : Cv2) (frame1 frame2 : Frame) : Q :=
  py_sum (map (contourArea cv) (detect_motion cv frame1 frame2).2).

(** The motion detector in the words of the specification:
    [detect(previous, current, threshold_area)]. *)
Record MotionResult : Type := {
  detected : bool;
  changed_area : Q;
  regions : list Contour
}.

(** A pixel of the binarised difference: full intensity where the two
    intensities differ by more than 25, zero elsewhere. *)
Definition spec_changed (cv : Cv2) (p q : Pixel) : Z :=
  if 25 <? Z.abs (luma cv p - luma cv q) then 255 else 0.

Definition spec_mask (cv : Cv2) (previous current : Frame) : Gray :=
  dilate3 (dilate3 (zip_with (zip_with (spec_changed cv)) previous current)).

Definition spec_detect (cv : Cv2) (previous current : Frame)
    (threshold_area : Q) : MotionResult :=
  let rs := findContours cv (spec_mask cv previous current) in
  let area := py_sum (map (contourArea cv) rs) in
  {| detected := Qgtb area threshold_area;
     changed_area := area;
     regions := rs |}.

(** ** Program state *)

(** A location of the array store. *)
Definition loc : Type := nat.

(** An entry of [motion_events]: a dict with the keys ['timestamp'],
    ['image'] and ['path']. *)
Record Event : Type := {
  timestamp : string;
  image : string;
  path : string
}.

(** A started alert thread: its target and its argument. *)
Inductive Alert : Type :=
| EmailAlert (image_path : string)
| SmsAlert (image_url : string).

(** The [cv2.VideoCapture] object. *)
Record Camera : Type := { isOpened : bool }.

(** The module-level variables that [generate_frames] declares [global],
    and the part of the world it acts on: the array store, the files
    written below [static/captures], the standard output and the threads
    it has started. *)
Record Globals : Type := {
  camera : option Camera;
  output_frame : option loc;
  motion_detected : bool;
  last_motion_time : option Q;
  frame_count : Z;
  motion_events : list Event;
  heap : list Frame;
  files : gmap string Frame;
  stdout : list string;
  threads : list Alert
}.

(** The state after the module is loaded. *)
Definition initial_globals : Globals :=
  {| camera := None; output_frame := None; motion_detected := false;
     last_motion_time := None; frame_count := 0; motion_events := [];
     heap := []; files := ∅; stdout := []; threads := [] |}.

Definition set_camera (v : option Camera) (s : Globals) : Globals :=
  {| camera := v; output_frame := output_frame s;
     motion_detected := motion_detected s;
     last_motion_time := last_motion_time s; frame_count := frame_count s;
     motion_events := motion_events s; heap := heap s; files := files s;
     stdout := stdout s; threads := threads s |}.

Definition set_output_frame (v : option loc) (s : Globals) : Globals :=
  {| camera := camera s; output_frame := v;
     motion_detected := motion_detected s;
     last_motion_time := last_motion_time s; frame_count := frame_count s;
     motion_events := motion_events s; heap := heap s; files := files s;
     stdout := stdout s; threads := threads s |}.

Definition set_motion_detected (v : bool) (s : Globals) : Globals :=
  {| camera := camera s; output_frame := output_frame s;
     motion_detected := v;
     last_motion_time := last_motion_time s; frame_count := frame_count s;
     motion_events := motion_events s; heap := heap s; files := files s;
     stdout := stdout s; threads := threads s |}.

Definition set_last_motion_time (v : option Q) (s : Globals) : Globals :=
  {| camera := camera s; output_frame := output_frame s;
     motion_detected := motion_detected s;
     last_motion_time := v; frame_count := frame_count s;
     motion_events := motion_events s; heap := heap s; files := files s;
     stdout := stdout s; threads := threads s |}.

Definition set_frame_count (v : Z) (s : Globals) : Globals :=
  {| camera := camera s; output_frame := output_frame s;
     motion_detected := motion_detected s;
     last_motion_time := last_motion_time s; frame_count := v;
     motion_events := motion_events s; heap := heap s; files := files s;
     stdout := stdout s; threads := threads s |}.

Definition set_motion_events (v : list Event) (s : Globals) : Globals :=
  {| camera := camera s; output_frame := output_frame s;
     motion_detected := motion_detected s;
     last_motion_time := last_motion_time s; frame_count := frame_count s;
     motion_events := v; heap := heap s; files := files s;
     stdout := stdout s; threads := threads s |}.

Definition set_heap (v : list Frame) (s : Globals) : Globals :=
  {| camera := camera s; output_frame := output_frame s;
     motion_detected := motion_detected s;
     last_motion_time := last_motion_time s; frame_count := frame_count s;
     motion_events := motion_events s; heap := v; files := files s;
     stdout := stdout s; threads := threads s |}.

Definition set_files (v : gmap string Frame) (s : Globals) : Globals :=
  {| camera := camera s; output_frame := output_frame s;
     motion_detected := motion_detected s;
     last_motion_time := last_motion_time s; frame_count := frame_count s;
     motion_events := motion_events s; heap := heap s; files := v;
     stdout := stdout s; threads := threads s |}.

Definition set_stdout (v : list string) (s : Globals) : Globals :=
  {| camera := camera s; output_frame := output_frame s;
     motion_detected := motion_detected s;
     last_motion_time := last_motion_time s; frame_count := frame_count s;
     motion_events := motion_events s; heap := heap s; files := files s;
     stdout := v; threads := threads s |}.

Definition set_threads (v : list Alert) (s : Globals) : Globals :=
  {| camera := camera s; output_frame := output_frame s;
     motion_detected := motion_detected s;
     last_motion_time := last_motion_time s; frame_count := frame_count s;
     motion_events := motion_events s; heap := heap s; files := files s;
     stdout := stdout s; threads := v |}.

(** *** The array store *)

(** A new array with content [v] (a frame delivered by the camera,
    [np.zeros], [.copy()]). *)
Definition alloc (v : Frame) (s : Globals) : loc * Globals :=
  (length (heap s), set_heap (heap s ++ [v]) s).

(** The content of the array at [l]. *)
Definition load (l : loc) (s : Globals) : Frame :=
  default [] (heap s !! l).

(** In-place modification of the array at [l]. *)
Definition store (l : loc) (v : Frame) (s : Globals) : Globals :=
  set_heap (<[l := v]> (heap s)) s.

(** [print(line)] *)
Definition print (line : string) (s : Globals) : Globals :=
  set_stdout (stdout s ++ [line]) s.

(** [threading.Thread(target=..., args=...).start()] *)
Definition start_thread (a : Alert) (s : Globals) : Globals :=
  set_threads (threads s ++ [a]) s.

(** [cv2.imwrite(filepath, img)]: the file appears only when the write
    succeeds; the caller learns the outcome from the returned flag. *)
Definition imwrite (filepath : string) (img : loc) (ok : bool) (s : Globals)
  : bool * Globals :=
  (ok, if ok then set_files (<[filepath := load img s]> (files s)) s else s).

(** ** Acquisition loop *)

(** What one pass of the [while True] loop of [generate_frames] observes. *)
Record Tick : Type := {
  (** [camera.read()]: [Some f] for [(True, f)], [None] for
      [(False, None)] *)
  tk_read : option Frame;
  (** [datetime.datetime.now().strftime("%Y-%m-%d %H:%M:%S")] *)
  tk_timestamp : string;
  (** [time.time()] *)
  tk_time : Q;
  (** [datetime.datetime.now().strftime('%Y%m%d_%H%M%S')] *)
  tk_filestamp : string;
  (** whether a [cv2.imwrite] issued in this pass succeeds *)
  tk_imwrite_ok : bool
}.

(** How a pass of the loop ends: the next pass starts with the given
    [prev_frame], the loop is left, or an exception propagates. *)
Inductive Control : Type :=
| Next (prev_frame : option loc)
| Break
| Raise (e : string).

(** How [generate_frames] stands after the observations given to it: back
    at the top of its loop, returned, or left by an exception. *)
Inductive Exit : Type :=
| Running (prev_frame : option loc)
| Returned
| Raised (e : string).

(** [UPLOAD_FOLDER] *)
Definition UPLOAD_FOLDER : string := "static/captures".

(** [os.path.join(folder, name)] for a relative [name], POSIX separator. *)
Definition path_join (folder name : string) : string :=
  folder +:+ "/" +:+ name.

(** The annotated copy: [frame.copy()], then [cv2.drawContours] and
    [cv2.putText] on that copy. *)
Definition annotate (cv : Cv2) (frame : loc) (contours : list Contour)
    (timestamp : string) (s : Globals) : loc * Globals :=
  let '(frame_with_contours, s) := alloc (load frame s) s in
  let s := store frame_with_contours
             (drawContours cv (load frame_with_contours s) contours
                (-1) (0, 255, 0) 2) s in
  let s := store frame_with_contours
             (putText cv (load frame_with_contours s) timestamp
                (10, Z.of_nat (length (load frame s)) - 10)
                (1 # 2)%Q (0, 0, 255) 1) s in
  (frame_with_contours, s).

(** [last_motion_time is None or (current_time - last_motion_time) > 5] *)
Definition alert_due (last : option Q) (current_time : Q) : bool :=
  match last with
  | None => true
  | Some l => Qgtb (current_time - l) 5
  end.

(** The entry that a pass adds to [motion_events]. *)
Definition new_event (t : Tick) : Event :=
  let filename := "motion_" +:+ tk_filestamp t +:+ ".jpg" in
  {| timestamp := tk_timestamp t;
     image := filename;
     path := path_join UPLOAD_FOLDER filename |}.

(** The body of the inner [if] of [generate_frames]: a new alert. *)
Definition new_alert (frame : loc) (t : Tick) (s : Globals) : Globals :=
  let s := set_motion_detected true s in
  let s := set_last_motion_time (Some (tk_time t)) s in
  let filename := "motion_" +:+ tk_filestamp t +:+ ".jpg" in
  let filepath := path_join UPLOAD_FOLDER filename in
  let '(_, s) := imwrite filepath frame (tk_imwrite_ok t) s in
  let s := set_motion_events
             ({| timestamp := tk_timestamp t; image := filename;
                 path := filepath |} :: motion_events s) s in
  let s := if (20 <? length (motion_events s))%nat
           then set_motion_events (take 20 (motion_events s)) s
           else s in
  let s := start_thread (EmailAlert filepath) s in
  start_thread
    (SmsAlert ("http://yourdomain.com/static/captures/" +:+ filename)) s.

(** "Handle motion detection": [if motion: if ...: <new alert>]. *)
Definition handle_motion (frame : loc) (motion : bool) (t : Tick)
    (s : Globals) : Globals :=
  let current_time := tk_time t in
  if motion then
    if alert_due (last_motion_time s) current_time
    then new_alert frame t s
    else s
  else s.

(** [with lock: output_frame = img.copy()] *)
Definition publish (img : loc) (s : Globals) : Globals :=
  let '(copy, s) := alloc (load img s) s in
  set_output_frame (Some copy) s.

(** One pass of the [while True] loop. [detect_motion] fails inside
    [cv2.cvtColor] when [prev_frame] is [None]. *)
Definition loop_body (cv : Cv2) (prev_frame : option loc) (t : Tick)
    (s : Globals) : Control * Globals :=
  match tk_read t with
  | None => (Break, s)
  | Some content =>
    let '(frame, s) := alloc content s in
    if frame_count s mod 2 =? 0 then
      match prev_frame with
      | None => (Raise "cv2.error", s)
      | Some prev =>
        let '(motion, _, contours) :=
          detect_motion cv (load prev s) (load frame s) in
        let '(prev_frame, s) := alloc (load frame s) s in
        let '(frame_with_contours, s) :=
          annotate cv frame contours (tk_timestamp t) s in
        let s := handle_motion frame motion t s in
        let s := publish frame_with_contours s in
        (Next (Some prev_frame), set_frame_count (frame_count s + 1) s)
      end
    else (Next prev_frame, set_frame_count (frame_count s + 1) s)
  end.

(** The loop on the passes observed so far. *)
Fixpoint frames_loop (cv : Cv2) (ticks : list Tick)
    (prev_frame : option loc) (s : Globals) : Exit * Globals :=
  match ticks with
  | [] => (Running prev_frame, s)
  | t :: rest =>
    match loop_body cv prev_frame t s with
    | (Next prev_frame, s) => frames_loop cv rest prev_frame s
    | (Break, s) => (Returned, s)
    | (Raise e, s) => (Raised e, s)
    end
  end.

(** Outcome of [cv2.VideoCapture(0)]. *)
Inductive OpenResult : Type :=
| Opened (cam : Camera)
| OpenError (e : string).

(** The frame shown when the camera cannot be used: [np.zeros((480, 640,
    3), np.uint8)] with the text drawn on it, published as a copy. *)
Definition camera_not_available (cv : Cv2) (s : Globals) : Globals :=
  let '(blank_frame, s) := alloc (repeat (repeat (0, 0, 0) 640) 480) s in
  let s := store blank_frame
             (putText cv (load blank_frame s) "Camera not available"
                (100, 240) 1%Q (0, 0, 255) 2) s in
  publish blank_frame s.

(** [generate_frames()]: [open] is what [cv2.VideoCapture(0)] does if it is
    called, [first] the read that initialises [prev_frame], [ticks] the
    passes of the loop. *)
Definition generate_frames (cv : Cv2) (open : OpenResult)
    (first : option Frame) (ticks : list Tick) (s : Globals)
  : Exit * Globals :=
  let start (s : Globals) : Exit * Globals :=
    match first with
    | Some content =>
      let '(prev_frame, s) := alloc content s in
      frames_loop cv ticks (Some prev_frame) s
    | None => frames_loop cv ticks None s
    end in
  match camera s with
  | None =>
    match open with
    | Opened cam =>
      let s := set_camera (Some cam) s in
      if negb (isOpened cam) then
        let s := print "Error: Could not open camera." s in
        (Returned, camera_not_available cv s)
      else start s
    | OpenError e =>
      let s := print ("Camera error: " +:+ e) s in
      (Returned, camera_not_available cv s)
    end
  | Some _ => start s
  end.

(** ** Stream consumers *)

(** What a reader of [output_frame] finds. *)
Definition latest (s : Globals) : option Frame :=
  l ← output_frame s; heap s !! l.

Definition CRLF : Bytes := [Byte.x0d; Byte.x0a].

(** The part of a multipart stream that carries one encoded image. *)
Definition stream_part (encoded_image : Bytes) : Bytes :=
  String.list_byte_of_string "--frame" ++ CRLF
  ++ String.list_byte_of_string "Content-Type: image/jpeg"
  ++ CRLF ++ CRLF ++ encoded_image ++ CRLF.

(** One pass of the loop of [generate_video_feed]: [None] when the pass
    ends in [continue], the yielded part otherwise. *)
Definition video_feed_step (cv : Cv2) (s : Globals) : option Bytes :=
  match latest s with
  | None => None
  | Some img =>
    let '(flag, encoded_image) := imencode_jpg cv img in
    if negb flag then None else Some (stream_part encoded_image)
  end.

(** ** Settings and alerts *)

Module Email.
(** [settings['email']] *)
Record t : Type := {
  enabled : bool;
  smtp_server : string;
  smtp_port : Z;
  username : string;
  password : string;
  recipient : string
}.

Definition set_enabled (v : bool) (e : t) : t :=
  {| enabled := v; smtp_server := smtp_server e; smtp_port := smtp_port e;
     username := username e; password := password e;
     recipient := recipient e |}.
Definition set_smtp_server (v : string) (e : t) : t :=
  {| enabled := enabled e; smtp_server := v; smtp_port := smtp_port e;
     username := username e; password := password e;
     recipient := recipient e |}.
Definition set_smtp_port (v : Z) (e : t) : t :=
  {| enabled := enabled e; smtp_server := smtp_server e; smtp_port := v;
     username := username e; password := password e;
     recipient := recipient e |}.
Definition set_username (v : string) (e : t) : t :=
  {| enabled := enabled e; smtp_server := smtp_server e;
     smtp_port := smtp_port e; username := v; password := password e;
     recipient := recipient e |}.
Definition set_password (v : string) (e : t) : t :=
  {| enabled := enabled e; smtp_server := smtp_server e;
     smtp_port := smtp_port e; username := username e; password := v;
     recipient := recipient e |}.
Definition set_recipient (v : string) (e : t) : t :=
  {| enabled := enabled e; smtp_server := smtp_server e;
     smtp_port := smtp_port e; username := username e;
     password := password e; recipient := v |}.
End Email.

Module Twilio.
(** [settings['twilio']] *)
Record t : Type := {
  enabled : bool;
  account_sid : string;
  auth_token : string;
  from_number : string;
  to_number : string
}.

Definition set_enabled (v : bool) (w : t) : t :=
  {| enabled := v; account_sid := account_sid w;
     auth_token := auth_token w; from_number := from_number w;
     to_number := to_number w |}.
Definition set_account_sid (v : string) (w : t) : t :=
  {| enabled := enabled w; account_sid := v;
     auth_token := auth_token w; from_number := from_number w;
     to_number := to_number w |}.
Definition set_auth_token (v : string) (w : t) : t :=
  {| enabled := enabled w; account_sid := account_sid w;
     auth_token := v; from_number := from_number w;
     to_number := to_number w |}.
Definition set_from_number (v : string) (w : t) : t :=
  {| enabled := enabled w; account_sid := account_sid w;
     auth_token := auth_token w; from_number := v;
     to_number := to_number w |}.
Definition set_to_number (v : string) (w : t) : t :=
  {| enabled := enabled w; account_sid := account_sid w;
     auth_token := auth_token w; from_number := from_number w;
     to_number := v |}.
End Twilio.

(** The module-level dict [settings]. *)
Record Settings : Type := {
  email : Email.t;
  twilio : Twilio.t
}.

(** Its value after the module is loaded. *)
Definition initial_settings : Settings :=
  {| email := {| Email.enabled := false; Email.smtp_server := "";
                 Email.smtp_port := 587; Email.username := "";
                 Email.password := ""; Email.recipient := "" |};
     twilio := {| Twilio.enabled := false; Twilio.account_sid := "";
                  Twilio.auth_token := ""; Twilio.from_number := "";
                  Twilio.to_number := "" |} |}.

(** [send_email_alert(image_path)]: the returned flag and the lines it
    prints. [failure] is the exception, if any, that reading the image or
    the SMTP exchange raises inside the [try]. *)
Definition send_email_alert (settings : Settings) (image_path : string)
    (failure : option string) : bool * list string :=
  if negb (Email.enabled (email settings)) then (false, [])
  else match failure with
       | None => (true, [])
       | Some e => (false, ["Email error: " +:+ e])
       end.

(** [send_sms_alert(image_url)], likewise. *)
Definition send_sms_alert (settings : Settings) (image_url : string)
    (failure : option string) : bool * list string :=
  if negb (Twilio.enabled (twilio settings)) then (false, [])
  else match failure with
       | None => (true, [])
       | Some e => (false, ["SMS error: " +:+ e])
       end.

(** What a started alert thread does. *)
Definition run_alert (settings : Settings) (a : Alert)
    (failure : option string) : bool * list string :=
  match a with
  | EmailAlert image_path => send_email_alert settings image_path failure
  | SmsAlert image_url => send_sms_alert settings image_url failure
  end.

(** How a request handler ends. *)
Inductive Outcome (A : Type) : Type :=
| Returns (a : A)
| Raises (e : string).
Arguments Returns {A} a.
Arguments Raises {A} e.

(** A response of the settings endpoint: the flashed message and the
    endpoint of the redirect. *)
Record Response : Type := {
  flashed : string * string;
  redirect : string
}.

(** [key in request.form] *)
Definition form_has (form : gmap string string) (key : string) : bool :=
  match form !! key with Some _ => true | None => false end.

(** [request.form.get(key, '')] *)
Definition form_get (form : gmap string string) (key : string) : string :=
  default "" (form !! key).

(** Truth value of [request.form.get(key)]: the field is present and not
    the empty string. *)
Definition form_truthy (form : gmap string string) (key : string) : bool :=
  match form !! key with
  | Some (String _ _) => true
  | _ => false
  end.

(** [update_settings()] on the submitted [form]. [py_int] is Python's
    [int] on strings, [None] where it raises [ValueError]; the settings
    keep what was assigned before the exception. *)
Definition update_settings (py_int : string -> option Z)
    (form : gmap string string) (settings : Settings)
  : Outcome Response * Settings :=
  let e := email settings in
  let e := Email.set_enabled (form_has form "email_enabled") e in
  let e := Email.set_smtp_server (form_get form "smtp_server") e in
  match match form !! "smtp_port" with
        | Some v => py_int v
        | None => Some 587
        end with
  | None => (Raises "ValueError", {| email := e; twilio := twilio settings |})
  | Some port =>
    let e := Email.set_smtp_port port e in
    let e := Email.set_username (form_get form "email_username") e in
    let e := if form_truthy form "email_password"
             then Email.set_password (form_get form "email_password") e
             else e in
    let e := Email.set_recipient (form_get form "email_recipient") e in
    let w := twilio settings in
    let w := Twilio.set_enabled (form_has form "twilio_enabled") w in
    let w := Twilio.set_account_sid (form_get form "twilio_account_sid") w in
    let w := if form_truthy form "twilio_auth_token"
             then Twilio.set_auth_token (form_get form "twilio_auth_token") w
             else w in
    let w := Twilio.set_from_number (form_get form "twilio_from_number") w in
    let w := Twilio.set_to_number (form_get form "twilio_to_number") w in
    (Returns {| flashed := ("Settings updated successfully!", "success");
                redirect := "settings_page" |},
     {| email := e; twilio := w |})
  end.

(** ** A small executable instance of the OpenCV interface

    It serves to run the program on concrete inputs. Contour extraction
    returns the corners of the bounding box of the set pixels, in the order
    OpenCV lists the corners of a rectangle; it agrees with OpenCV on the
    masks used below, which are blank or one filled axis-parallel
    rectangle. Drawing marks single pixels and encoding lists the channel
    values. No theorem about the program depends on this instance. *)
Module Sample.

(** 15-bit fixed-point weights 0.114, 0.587 and 0.299 of B, G and R. *)
Definition luma (p : Pixel) : Z :=
  let '(b, g, r) := p in
  (b * 3735 + g * 19235 + r * 9798 + 16384) / 32768.

Fixpoint set_in_row (y x : Z) (row : list Z) : list Point :=
  match row with
  | [] => []
  | v :: row =>
    (if v =? 0 then [] else [(x, y)]) ++ set_in_row y (x + 1) row
  end.

Fixpoint set_pixels (y : Z) (g : Gray) : list Point :=
  match g with
  | [] => []
  | row :: g => set_in_row y 0 row ++ set_pixels (y + 1) g
  end.

Definition findContours (g : Gray) : list Contour :=
  match set_pixels 0 g with
  | [] => []
  | p :: ps =>
    let x0 := foldr Z.min p.1 (map fst ps) in
    let x1 := foldr Z.max p.1 (map fst ps) in
    let y0 := foldr Z.min p.2 (map snd ps) in
    let y1 := foldr Z.max p.2 (map snd ps) in
    [[(x0, y0); (x0, y1); (x1, y1); (x1, y0)]]
  end.

(** Twice the signed area of the closed polygon, by Green's formula. *)
Fixpoint cross_sum (first prev : Point) (ps : list Point) : Z :=
  match ps with
  | [] => prev.1 * first.2 - first.1 * prev.2
  | p :: ps => (prev.1 * p.2 - p.1 * prev.2) + cross_sum first p ps
  end.

Definition contourArea (c : Contour) : Q :=
  match c with
  | [] => 0%Q
  | p :: ps => (Z.abs (cross_sum p p ps) # 2)%Q
  end.

(** The pixel at point [p] (column, row) takes the given colour. *)
Definition paint (colour : Pixel) (p : Point) (img : Frame) : Frame :=
  if (p.1 <? 0) || (p.2 <? 0) then img
  else alter (fun row => <[Z.to_nat p.1 := colour]> row) (Z.to_nat p.2) img.

Definition drawContours (img : Frame) (contours : list Contour) (idx : Z)
    (colour : Pixel) (thickness : Z) : Frame :=
  foldr (paint colour) img (concat contours).

Definition putText (img : Frame) (text : string) (org : Point) (scale : Q)
    (colour : Pixel) (thickness : Z) : Frame :=
  paint colour org img.

Definition byte_of_Z (v : Z) : Byte.byte :=
  default Byte.x00 (Byte.of_N (Z.to_N (v mod 256))).

Definition imencode_jpg (img : Frame) : bool * Bytes :=
  (true,
   flat_map (fun p : Pixel => [byte_of_Z p.1.1; byte_of_Z p.1.2; byte_of_Z p.2])
     (concat img)).

Definition cv : Cv2 :=
  Build_Cv2 luma findContours contourArea drawContours putText imencode_jpg.

(** A frame of one colour. *)
Definition solid (height width : nat) (p : Pixel) : Frame :=
  repeat (repeat p width) height.

(** A black frame with a white rectangle: rows [r0 .. r1 - 1], columns
    [c0 .. c1 - 1]. *)
Definition with_rectangle (height width r0 r1 c0 c1 : nat) : Frame :=
  map (fun r =>
    map (fun c =>
      if ((r0 <=? r) && (r <? r1) && (c0 <=? c) && (c <? c1))%nat
      then (255, 255, 255) else (0, 0, 0))
      (seq 0 width))
    (seq 0 height).

(** Decimal literals, the strings of digits among those that Python's
    [int] accepts. *)
Definition digit (a : Ascii.ascii) : option Z :=
  let n := Z.of_nat (Ascii.nat_of_ascii a) in
  if (48 <=? n) && (n <=? 57) then Some (n - 48) else None.

Fixpoint digits (acc : Z) (s : string) : option Z :=
  match s with
  | EmptyString => Some acc
  | String a s => d ← digit a; digits (10 * acc + d) s
  end.

Definition py_int (s : string) : option Z :=
  match s with
  | EmptyString => None
  | _ => digits 0 s
  end.

End Sample.

(** ** Notions used to state the properties *)

(** What the annotated copy of a frame holds: the contours drawn in green,
    then the time text in red above the lower left corner. *)
Definition annotated_frame (cv : Cv2) (content : Frame)
    (contours : list Contour) (timestamp : string) : Frame :=
  putText cv (drawContours cv content contours (-1) (0, 255, 0) 2)
    timestamp (10, Z.of_nat (length content) - 10) (1 # 2)%Q (0, 0, 255) 1.

(** The placeholder frame: black, 640 by 480, with the fixed text. *)
Definition placeholder_frame (cv : Cv2) : Frame :=
  putText cv (repeat (repeat (0, 0, 0) 640) 480) "Camera not available"
    (100, 240) 1%Q (0, 0, 255) 2.

(** The published array, if any, is an array of the store. *)
Definition output_frame_allocated (s : Globals) : Prop :=
  forall l : loc, output_frame s = Some l -> (l < length (heap s))%nat.

(** A time [now] at which a detection raises a new alert: there has been
    none before, or the last one is more than 5 seconds old. *)
Definition cooldown_over (last : option Q) (now : Q) : Prop :=
  last = None \/ exists l : Q, last = Some l /\ (5 < now - l)%Q.

(** A pass with fixed time texts, for the examples. *)
Definition sample_tick (read : option Frame) (now : Q) (ok : bool) : Tick :=
  {| tk_read := read; tk_timestamp := "2024-05-01 12:00:00";
     tk_time := now; tk_filestamp := "20240501_120000";
     tk_imwrite_ok := ok |}.

(** What a stream consumer sends for an image: the stream part of its
    encoding, or nothing when the encoder reports a failure. *)
Definition encoded_part (cv : Cv2) (img : Frame) : option Bytes :=
  if (imencode_jpg cv img).1
  then Some (stream_part (imencode_jpg cv img).2)
  else None.

(** ** Names of uploaded files

    Strings are byte strings (UTF-8). The separator and the letters of the
    allowed extensions are ASCII, and no other character has one of these
    letters as its lower case, so that lowering the ASCII letters decides
    the membership as [str.lower] does. *)

From Stdlib Require Import Ascii.

(** [ALLOWED_EXTENSIONS] *)
Definition ALLOWED_EXTENSIONS : gset string := {["png"; "jpg"; "jpeg"]}.

(** [sep in s], for a separator of one character. *)
Fixpoint contains (sep : Ascii.ascii) (s : string) : bool :=
  match s with
  | EmptyString => false
  | String a rest => if Ascii.eqb a sep then true else contains sep rest
  end.

(** [s.rsplit(sep, 1)]: [s] cut at its last separator, or [s] alone. *)
Fixpoint rsplit1 (sep : Ascii.ascii) (s : string) : list string :=
  match s with
  | EmptyString => [EmptyString]
  | String a rest =>
    match rsplit1 sep rest with
    | [tail] =>
      if Ascii.eqb a sep then [EmptyString; tail] else [String a tail]
    | head :: more => String a head :: more
    | [] => []
    end
  end.

Definition lower_ascii (a : Ascii.ascii) : Ascii.ascii :=
  let n := Ascii.nat_of_ascii a in
  if ((65 <=? n) && (n <=? 90))%nat then Ascii.ascii_of_nat (n + 32) else a.

(** [s.lower()] *)
Fixpoint lower (s : string) : string :=
  match s with
  | EmptyString => EmptyString
  | String a rest => String (lower_ascii a) (lower rest)
  end.

(** [allowed_file(filename)]; the index [[1]] is only evaluated when the
    name holds a dot, and then exists. *)
Definition allowed_file (filename : string) : bool :=
  contains "."%char filename
  && match rsplit1 "."%char filename !! 1%nat with
     | Some ext => bool_decide (lower ext ∈ ALLOWED_EXTENSIONS)
     | None => false
     end.

(** ** Further notions used to state the properties *)

(** An image of [h] rows of [w] pixels. *)
Definition rect {A : Type} (h w : nat) (img : list (list A)) : Prop :=
  length img = h /\ Forall (fun row => length row = w) img.

(** A mask whose pixels are 0 or 255. *)
Definition binary (g : Gray) : Prop :=
  Forall (Forall (fun v => v = 0 \/ v = 255)) g.

(** The pixel of a frame in row [r], column [c], if there is one. *)
Definition pixel_at (f : Frame) (r c : Z) : option Pixel :=
  if (r <? 0) || (c <? 0) then None
  else row ← f !! Z.to_nat r; row !! Z.to_nat c.

(** Row [r], column [c] lies in an image of [h] rows of [w] pixels. *)
Definition inside (h w : nat) (r c : Z) : Prop :=
  0 <= r < Z.of_nat h /\ 0 <= c < Z.of_nat w.

(** Successive positive detections, each with the array of its frame,
    handled as the loop handles them. *)
Definition handle_detections (ds : list (loc * Tick)) (s : Globals)
  : Globals :=
  foldl (fun s d => handle_motion d.1 true d.2 s) s ds.

(** Each detection of the list raises an alert when the detections are
    handled in turn, starting after an alert at [last]. *)
Fixpoint all_due (last : option Q) (ts : list Tick) : bool :=
  match ts with
  | [] => true
  | t :: rest =>
    alert_due last (tk_time t) && all_due (Some (tk_time t)) rest
  end.

(** * Properties *)

(** ** Comparison of rationals *)

Lemma Qgtb_true (a b : Q) : Qgtb a b = true <-> (b < a)%Q.
Proof.
  unfold Qgtb. rewrite negb_true_iff, <- not_true_iff_false, Qle_bool_iff.
  split; [apply Qnot_le_lt | apply Qlt_not_le].
Qed.

Lemma Qgtb_false (a b : Q) : Qgtb a b = false <-> (a <= b)%Q.
Proof. unfold Qgtb. rewrite negb_false_iff. apply Qle_bool_iff. Qed.

(** ** Masks without set pixels *)

Lemma absdiff_row_self (row : list Z) :
  Forall (eq 0) (zip_with (fun x y => Z.abs (x - y)) row row).
Proof.
  induction row as [|v row IH]; simpl; constructor; [lia | exact IH].
Qed.

Lemma absdiff_self (g : Gray) : blank (absdiff g g).
Proof.
  unfold blank, absdiff.
  induction g as [|row g IH]; simpl; constructor;
    [apply absdiff_row_self | exact IH].
Qed.

Lemma threshold_binary_blank (g : Gray) (thresh maxval : Z) :
  0 <= thresh -> blank g -> blank (threshold_binary g thresh maxval).
Proof.
  intros Hth Hg. unfold blank, threshold_binary in *.
  induction Hg as [|row g Hrow _ IH]; simpl; constructor; [|exact IH].
  induction Hrow as [|v row Hv _ IHrow]; simpl; constructor; [|exact IHrow].
  subst v. destruct (Z.ltb_spec thresh 0); [lia | reflexivity].
Qed.

Lemma px_blank (g : Gray) (r c : Z) : blank g -> px g r c = 0.
Proof.
  intros Hg. unfold px. destruct ((r <? 0) || (c <? 0)); [reflexivity|].
  destruct (g !! Z.to_nat r) as [row|] eqn:Hr; simpl; [|reflexivity].
  destruct (row !! Z.to_nat c) as [v|] eqn:Hc; simpl; [|reflexivity].
  unfold blank in Hg. rewrite Forall_lookup in Hg.
  specialize (Hg _ _ Hr). rewrite Forall_lookup in Hg.
  symmetry. exact (Hg _ _ Hc).
Qed.

Lemma dilate3_blank (g : Gray) : blank g -> blank (dilate3 g).
Proof.
  intros Hg. unfold blank, dilate3.
  apply Forall_lookup. intros r row' Hr.
  apply list_lookup_imap_Some in Hr as (row & _ & ->).
  apply Forall_lookup. intros c v Hc.
  apply list_lookup_imap_Some in Hc as (w & _ & ->).
  unfold kernel3. cbn [map foldr].
  rewrite !px_blank by exact Hg. reflexivity.
Qed.

Lemma dilate_blank (g : Gray) (n : nat) : blank g -> blank (dilate g n).
Proof.
  intros Hg. unfold dilate.
  induction n as [|n IH]; simpl; [exact Hg | apply dilate3_blank, IH].
Qed.

(** ** The detector and its description *)

Lemma threshold_absdiff_row (cv : Cv2) (r1 r2 : list Pixel) :
  map (fun v => if 25 <? v then 255 else 0)
    (zip_with (fun x y => Z.abs (x - y)) (map (luma cv) r1) (map (luma cv) r2))
  = zip_with (spec_changed cv) r1 r2.
Proof.
  revert r2. induction r1 as [|p r1 IH]; intros [|q r2]; simpl;
    try reflexivity.
  unfold spec_changed at 1. f_equal. apply IH.
Qed.

Lemma threshold_absdiff (cv : Cv2) (f1 f2 : Frame) :
  threshold_binary
    (absdiff (cvtColor_BGR2GRAY cv f1) (cvtColor_BGR2GRAY cv f2)) 25 255
  = zip_with (zip_with (spec_changed cv)) f1 f2.
Proof.
  unfold threshold_binary, absdiff, cvtColor_BGR2GRAY.
  revert f2. induction f1 as [|r1 f1 IH]; intros [|r2 f2]; simpl;
    try reflexivity.
  f_equal; [apply threshold_absdiff_row | apply IH].
Qed.

Lemma detect_motion_mask (cv : Cv2) (f1 f2 : Frame) :
  (detect_motion cv f1 f2).1.2 = spec_mask cv f1 f2.
Proof.
  unfold detect_motion, spec_mask. simpl. rewrite threshold_absdiff.
  reflexivity.
Qed.

Lemma Sample_set_in_row_blank (y x : Z) (row : list Z) :
  Forall (eq 0) row -> Sample.set_in_row y x row = [].
Proof.
  intros Hrow. revert x.
  induction Hrow as [|v row Hv _ IH]; intros x; simpl; [reflexivity|].
  subst v. simpl. apply IH.
Qed.

Lemma Sample_set_pixels_blank (y : Z) (g : Gray) :
  blank g -> Sample.set_pixels y g = [].
Proof.
  intros Hg. revert y.
  induction Hg as [|row g Hrow _ IH]; intros y; simpl; [reflexivity|].
  rewrite Sample_set_in_row_blank by exact Hrow. apply IH.
Qed.

Lemma Sample_findContours_blank : findContours_blank Sample.cv.
Proof.
  intros g Hg. simpl. unfold Sample.findContours.
  rewrite Sample_set_pixels_blank by exact Hg. reflexivity.
Qed.

(** C3, as the code has it. [detect_motion] is the pipeline of the
    specification: intensities, absolute difference, cutoff 25, two
    dilation passes, external contours, sum of their areas. The flag it
    returns compares that sum with the module-level [motion_threshold],
    which is 5000; the function has no threshold argument. *)
Theorem detect_motion_pipeline (cv : Cv2) (frame1 frame2 : Frame) :
  let r := spec_detect cv frame1 frame2 motion_threshold in
  detect_motion cv frame1 frame2
    = (detected r, spec_mask cv frame1 frame2, regions r)
  /\ total_area cv frame1 frame2 = changed_area r
  /\ motion_threshold = 5000%Q.
Proof.
  assert (Hm := detect_motion_mask cv frame1 frame2).
  unfold total_area, detect_motion, spec_detect in *. simpl in *.
  rewrite Hm. repeat split.
Qed.

(** C3 as stated fails: a change of area 25 is above a caller's threshold
    of 10, and [detect_motion] still answers with [False], because it
    compares with 5000. *)
Lemma detect_motion_caller_threshold_counterexample :
  let previous := Sample.solid 10 10 (0, 0, 0) in
  let current := Sample.with_rectangle 10 10 4 6 4 6 in
  regions (spec_detect Sample.cv previous current 10%Q)
    = [[(2, 2); (2, 7); (7, 7); (7, 2)]]
  /\ (changed_area (spec_detect Sample.cv previous current 10%Q) == 25)%Q
  /\ detected (spec_detect Sample.cv previous current 10%Q) = true
  /\ (detect_motion Sample.cv previous current).1.1 = false.
Proof. vm_compute. repeat split. Qed.

(** C4. Two identical frames: no motion, no contour, changed area 0,
    for every contour extraction that finds nothing in a blank mask. *)
Theorem detect_motion_identical_frames (cv : Cv2) (F : Frame) :
  findContours_blank cv ->
  (detect_motion cv F F).1.1 = false
  /\ total_area cv F F = 0%Q
  /\ (detect_motion cv F F).2 = []
  /\ blank (detect_motion cv F F).1.2.
Proof.
  intros Hcv.
  assert (Hblank : blank (dilate (threshold_binary
            (absdiff (cvtColor_BGR2GRAY cv F) (cvtColor_BGR2GRAY cv F))
            25 255) 2)).
  { apply dilate_blank, threshold_binary_blank; [lia | apply absdiff_self]. }
  unfold total_area, detect_motion. cbn [fst snd].
  rewrite (Hcv _ Hblank). repeat split. exact Hblank.
Qed.

Lemma detect_motion_identical_frames_witness :
  findContours_blank Sample.cv
  /\ (detect_motion Sample.cv (Sample.solid 4 4 (10, 20, 30))
        (Sample.solid 4 4 (10, 20, 30))).1.1 = false.
Proof.
  split; [exact Sample_findContours_blank|].
  apply (detect_motion_identical_frames Sample.cv
           (Sample.solid 4 4 (10, 20, 30)) Sample_findContours_blank).
Defined.

(** ** The array store *)

Lemma heap_lookup_new (h : list Frame) (v : Frame) :
  (h ++ [v]) !! length h = Some v.
Proof. apply list_lookup_middle. reflexivity. Qed.

Lemma heap_insert_new (h : list Frame) (v w : Frame) :
  <[length h := w]> (h ++ [v]) = h ++ [w].
Proof.
  rewrite insert_app_r_alt by lia. rewrite Nat.sub_diag. reflexivity.
Qed.

Lemma load_alloc_old (l : loc) (v : Frame) (s : Globals) :
  (l < length (heap s))%nat -> load l (alloc v s).2 = load l s.
Proof.
  intros Hl. unfold load, alloc. simpl. rewrite lookup_app_l by exact Hl.
  reflexivity.
Qed.

Lemma load_alloc_new (v : Frame) (s : Globals) :
  load (alloc v s).1 (alloc v s).2 = v.
Proof. unfold load, alloc. simpl. rewrite heap_lookup_new. reflexivity. Qed.

Lemma annotate_eq (cv : Cv2) (frame : loc) (contours : list Contour)
    (ts : string) (s : Globals) :
  (frame < length (heap s))%nat ->
  annotate cv frame contours ts s
  = (length (heap s),
     set_heap
       (heap s ++ [annotated_frame cv (load frame s) contours ts]) s).
Proof.
  intros Hl. unfold annotate, annotated_frame, alloc, store, load. simpl.
  rewrite heap_lookup_new. simpl.
  rewrite heap_insert_new, heap_lookup_new. simpl.
  rewrite heap_insert_new. rewrite (lookup_app_l _ _ frame) by exact Hl.
  reflexivity.
Qed.

Lemma publish_eq (img : loc) (s : Globals) :
  publish img s
  = set_output_frame (Some (length (heap s)))
      (set_heap (heap s ++ [load img s]) s).
Proof. reflexivity. Qed.

(** ** One pass of the loop *)

Ltac handle_cases :=
  unfold handle_motion, new_alert, imwrite, start_thread;
  repeat match goal with
         | |- context [if ?b then _ else _] => destruct b
         end;
  simpl.

Lemma handle_motion_heap (frame : loc) (motion : bool) (t : Tick)
    (s : Globals) :
  heap (handle_motion frame motion t s) = heap s.
Proof. handle_cases; reflexivity. Qed.

Lemma handle_motion_stdout (frame : loc) (motion : bool) (t : Tick)
    (s : Globals) :
  stdout (handle_motion frame motion t s) = stdout s.
Proof. handle_cases; reflexivity. Qed.

Lemma handle_motion_frame_count (frame : loc) (motion : bool) (t : Tick)
    (s : Globals) :
  frame_count (handle_motion frame motion t s) = frame_count s.
Proof. handle_cases; reflexivity. Qed.

Lemma handle_motion_events (frame : loc) (motion : bool) (t : Tick)
    (s : Globals) :
  motion_events (handle_motion frame motion t s)
  = if motion && alert_due (last_motion_time s) (tk_time t)
    then new_event t :: take 19 (motion_events s)
    else motion_events s.
Proof.
  unfold handle_motion.
  destruct motion; [|reflexivity].
  destruct (alert_due _ _); [|reflexivity].
  unfold new_alert, imwrite, start_thread, new_event. simpl.
  destruct (tk_imwrite_ok t); simpl;
    destruct (Nat.ltb_spec 20 (S (length (motion_events s)))) as [H|H];
    simpl; try reflexivity; rewrite take_ge by lia; reflexivity.
Qed.

Lemma handle_motion_files (frame : loc) (motion : bool) (t : Tick)
    (s : Globals) :
  files (handle_motion frame motion t s)
  = if motion && alert_due (last_motion_time s) (tk_time t)
       && tk_imwrite_ok t
    then <[path (new_event t) := load frame s]> (files s)
    else files s.
Proof.
  unfold handle_motion.
  destruct motion; [|reflexivity].
  destruct (alert_due _ _); [|reflexivity].
  unfold new_alert, imwrite, start_thread, new_event. simpl.
  destruct (tk_imwrite_ok t); simpl;
    destruct (Nat.ltb_spec 20 (S (length (motion_events s))));
    reflexivity.
Qed.

Lemma handle_motion_threads (frame : loc) (motion : bool) (t : Tick)
    (s : Globals) :
  threads (handle_motion frame motion t s)
  = if motion && alert_due (last_motion_time s) (tk_time t)
    then threads s
         ++ [EmailAlert (path (new_event t));
             SmsAlert ("http://yourdomain.com/static/captures/"
                       +:+ image (new_event t))]
    else threads s.
Proof.
  unfold handle_motion.
  destruct motion; [|reflexivity].
  destruct (alert_due _ _); [|reflexivity].
  unfold new_alert, imwrite, start_thread, new_event. simpl.
  destruct (tk_imwrite_ok t); simpl;
    destruct (Nat.ltb_spec 20 (S (length (motion_events s))));
    simpl; rewrite <- app_assoc; reflexivity.
Qed.

Lemma handle_motion_last_motion_time (frame : loc) (motion : bool)
    (t : Tick) (s : Globals) :
  last_motion_time (handle_motion frame motion t s)
  = if motion && alert_due (last_motion_time s) (tk_time t)
    then Some (tk_time t)
    else last_motion_time s.
Proof.
  unfold handle_motion.
  destruct motion; [|reflexivity].
  destruct (alert_due _ _); [|reflexivity].
  unfold new_alert, imwrite, start_thread, new_event. simpl.
  destruct (tk_imwrite_ok t); simpl;
    destruct (Nat.ltb_spec 20 (S (length (motion_events s))));
    reflexivity.
Qed.

Lemma loop_body_break (cv : Cv2) (prev : option loc) (t : Tick)
    (s : Globals) :
  tk_read t = None -> loop_body cv prev t s = (Break, s).
Proof. intros Hr. unfold loop_body. rewrite Hr. reflexivity. Qed.

Lemma loop_body_skipped (cv : Cv2) (prev : option loc) (t : Tick)
    (s : Globals) (content : Frame) :
  tk_read t = Some content ->
  frame_count s mod 2 <> 0 ->
  loop_body cv prev t s
  = (Next prev,
     set_frame_count (frame_count s + 1)
       (set_heap (heap s ++ [content]) s)).
Proof.
  intros Hr Hodd. unfold loop_body. rewrite Hr. simpl.
  destruct (Z.eqb_spec (frame_count s mod 2) 0); [contradiction|].
  reflexivity.
Qed.

Lemma loop_body_no_prev (cv : Cv2) (t : Tick) (s : Globals)
    (content : Frame) :
  tk_read t = Some content ->
  frame_count s mod 2 = 0 ->
  loop_body cv None t s
  = (Raise "cv2.error", set_heap (heap s ++ [content]) s).
Proof.
  intros Hr Heven. unfold loop_body. rewrite Hr. simpl.
  rewrite Heven. reflexivity.
Qed.

Lemma loop_body_processed (cv : Cv2) (prev : loc) (t : Tick) (s : Globals)
    (content : Frame) (motion : bool) (thresh : Gray)
    (contours : list Contour) :
  tk_read t = Some content ->
  frame_count s mod 2 = 0 ->
  detect_motion cv (load prev (alloc content s).2) content
    = (motion, thresh, contours) ->
  loop_body cv (Some prev) t s
  = (Next (Some (S (length (heap s)))),
     set_frame_count (frame_count s + 1)
       (publish (S (S (length (heap s))))
          (handle_motion (length (heap s)) motion t
             (set_heap
                (heap s
                 ++ [content; content;
                     annotated_frame cv content contours (tk_timestamp t)])
                s)))).
Proof.
  intros Hr Heven Hd. unfold loop_body. rewrite Hr.
  unfold alloc in *. cbn [fst snd frame_count heap set_heap] in *.
  rewrite Heven. cbn [Z.eqb].
  assert (Hnew : load (length (heap s)) (set_heap (heap s ++ [content]) s)
                 = content).
  { unfold load. cbn [heap set_heap]. rewrite heap_lookup_new. reflexivity. }
  rewrite !Hnew, Hd.
  rewrite annotate_eq by (cbn [heap set_heap]; rewrite !length_app; simpl; lia).
  cbn [heap set_heap].
  assert (Hold : load (length (heap s))
            (set_heap ((heap s ++ [content]) ++ [content])
               (set_heap (heap s ++ [content]) s)) = content).
  { unfold load. cbn [heap set_heap].
    rewrite lookup_app_l by (rewrite length_app; simpl; lia).
    rewrite heap_lookup_new. reflexivity. }
  rewrite Hold.
  rewrite publish_eq. cbn [frame_count set_output_frame set_heap].
  rewrite handle_motion_frame_count. cbn [frame_count set_heap].
  rewrite !length_app. cbn [length]. rewrite !Nat.add_1_r.
  rewrite <- !app_assoc. reflexivity.
Qed.

(** ** De-bouncing and the event log *)

Lemma alert_due_spec (last : option Q) (now : Q) :
  alert_due last now = true <-> cooldown_over last now.
Proof.
  unfold alert_due, cooldown_over. destruct last as [l|].
  - rewrite Qgtb_true. split.
    + intros H. right. exists l. split; [reflexivity | exact H].
    + intros [H | (l' & H & Hlt)]; [discriminate|].
      injection H as <-. exact Hlt.
  - split; [intros _; left; reflexivity | reflexivity].
Qed.

Lemma handle_motion_suppressed (frame : loc) (t : Tick) (s : Globals) :
  alert_due (last_motion_time s) (tk_time t) = false ->
  handle_motion frame true t s = s.
Proof. intros H. unfold handle_motion. rewrite H. reflexivity. Qed.

Lemma handle_motion_changes (frame : loc) (t : Tick) (s : Globals) :
  alert_due (last_motion_time s) (tk_time t) = true ->
  handle_motion frame true t s <> s.
Proof.
  intros H Heq.
  assert (Hth := handle_motion_threads frame true t s).
  rewrite Heq, H in Hth. simpl in Hth.
  apply (f_equal length) in Hth. rewrite length_app in Hth.
  simpl in Hth. lia.
Qed.

(** C1. A positive detection changes the state exactly when there has been
    no alert before or the last one is more than 5 seconds old; it then
    puts a new event at the head of the log and restarts the cooldown.
    Detections at [t0], [t0 + 1] and [t0 + 6], with no event before, give
    two events, for [t0] and [t0 + 6]; the one at [t0 + 1] changes
    nothing. *)
Theorem debounce_cooldown :
  (forall (frame : loc) (t : Tick) (s : Globals),
     handle_motion frame true t s <> s
     <-> cooldown_over (last_motion_time s) (tk_time t))
  /\ (forall (frame : loc) (t : Tick) (s : Globals),
        cooldown_over (last_motion_time s) (tk_time t) ->
        motion_events (handle_motion frame true t s)
          = new_event t :: take 19 (motion_events s)
        /\ last_motion_time (handle_motion frame true t s)
           = Some (tk_time t))
  /\ (forall (f1 f2 f3 : loc) (t1 t2 t3 : Tick) (s : Globals),
        last_motion_time s = None ->
        motion_events s = [] ->
        (tk_time t2 == tk_time t1 + 1)%Q ->
        (tk_time t3 == tk_time t1 + 6)%Q ->
        let s1 := handle_motion f1 true t1 s in
        let s2 := handle_motion f2 true t2 s1 in
        let s3 := handle_motion f3 true t3 s2 in
        motion_events s1 = [new_event t1]
        /\ s2 = s1
        /\ motion_events s3 = [new_event t3; new_event t1]).
Proof.
  split; [|split].
  - intros frame t s. rewrite <- alert_due_spec. split.
    + intros Hne.
      destruct (alert_due (last_motion_time s) (tk_time t)) eqn:Hd;
        [reflexivity|].
      exfalso. apply Hne. apply handle_motion_suppressed. exact Hd.
    + apply handle_motion_changes.
  - intros frame t s Hc. apply alert_due_spec in Hc.
    rewrite handle_motion_events, handle_motion_last_motion_time, Hc.
    split; reflexivity.
  - intros f1 f2 f3 t1 t2 t3 s Hlast Hlog H2 H3 s1 s2 s3.
    assert (E1 : motion_events s1 = [new_event t1]).
    { subst s1. rewrite handle_motion_events, Hlast, Hlog. reflexivity. }
    assert (L1 : last_motion_time s1 = Some (tk_time t1)).
    { subst s1. rewrite handle_motion_last_motion_time, Hlast. reflexivity. }
    assert (E2 : s2 = s1).
    { subst s2. apply handle_motion_suppressed. rewrite L1. simpl.
      apply Qgtb_false. lra. }
    split; [exact E1|]. split; [exact E2|].
    subst s3. rewrite E2, handle_motion_events, L1, E1. simpl.
    assert (D3 : Qgtb (tk_time t3 - tk_time t1) 5 = true)
      by (apply Qgtb_true; lra).
    rewrite D3. reflexivity.
Qed.

Lemma debounce_cooldown_witness :
  let t1 := sample_tick None 100%Q true in
  let t2 := sample_tick None 101%Q true in
  let t3 := sample_tick None 106%Q true in
  let s1 := handle_motion 0%nat true t1 initial_globals in
  let s2 := handle_motion 0%nat true t2 s1 in
  let s3 := handle_motion 0%nat true t3 s2 in
  cooldown_over (last_motion_time initial_globals) (tk_time t1)
  /\ motion_events s1 = new_event t1 :: take 19 []
  /\ s2 = s1
  /\ motion_events s3 = [new_event t3; new_event t1].
Proof.
  intros t1 t2 t3 s1 s2 s3.
  destruct debounce_cooldown as (_ & Hstep & Hrun).
  assert (Hc : cooldown_over (last_motion_time initial_globals) (tk_time t1))
    by (left; reflexivity).
  split; [exact Hc|].
  split; [exact (proj1 (Hstep 0%nat t1 initial_globals Hc))|].
  refine (proj2 (Hrun 0%nat 0%nat 0%nat t1 t2 t3 initial_globals
                   eq_refl eq_refl _ _)); reflexivity.
Defined.

(** The same three detections through [generate_frames]: the passes with
    an odd [frame_count] are not examined, so the detections are those of
    the first, third and fifth pass. *)
Example debounce_three_detections_run :
  let dark := Sample.solid 80 80 (0, 0, 0) in
  let bright := Sample.solid 80 80 (255, 255, 255) in
  let pass (f : Frame) (now : Q) (stamp : string) : Tick :=
    {| tk_read := Some f; tk_timestamp := stamp; tk_time := now;
       tk_filestamp := stamp; tk_imwrite_ok := true |} in
  let r := generate_frames Sample.cv (Opened {| isOpened := true |})
             (Some dark)
             [pass bright 100%Q "a"; pass bright (201 # 2)%Q "b";
              pass dark 101%Q "c"; pass dark (203 # 2)%Q "d";
              pass bright 106%Q "e"]
             initial_globals in
  map timestamp (motion_events r.2) = ["e"; "a"]
  /\ last_motion_time r.2 = Some 106%Q
  /\ frame_count r.2 = 5.
Proof. vm_compute. repeat split. Qed.

Lemma loop_body_events (cv : Cv2) (prev : option loc) (t : Tick)
    (s : Globals) :
  motion_events (loop_body cv prev t s).2 = motion_events s
  \/ motion_events (loop_body cv prev t s).2
     = new_event t :: take 19 (motion_events s).
Proof.
  destruct (tk_read t) as [content|] eqn:Hr.
  - destruct (Z.eq_dec (frame_count s mod 2) 0) as [Heven|Hodd].
    + destruct prev as [prev|].
      * destruct (detect_motion cv (load prev (alloc content s).2) content)
          as [[motion thresh] contours] eqn:Hd.
        rewrite (loop_body_processed _ _ _ _ _ _ _ _ Hr Heven Hd).
        rewrite publish_eq. cbn [snd motion_events set_frame_count
          set_output_frame set_heap].
        rewrite handle_motion_events. cbn [motion_events last_motion_time
          set_heap].
        destruct (motion && alert_due (last_motion_time s) (tk_time t));
          [right | left]; reflexivity.
      * rewrite (loop_body_no_prev _ _ _ _ Hr Heven). left. reflexivity.
    + rewrite (loop_body_skipped _ _ _ _ _ Hr Hodd). left. reflexivity.
  - rewrite (loop_body_break _ _ _ _ Hr). left. reflexivity.
Qed.

Lemma loop_body_log_bound (cv : Cv2) (prev : option loc) (t : Tick)
    (s : Globals) :
  (length (motion_events s) <= 20)%nat ->
  (length (motion_events (loop_body cv prev t s).2) <= 20)%nat.
Proof.
  intros Hs. destruct (loop_body_events cv prev t s) as [-> | ->];
    [exact Hs|].
  simpl. rewrite length_take. lia.
Qed.

Lemma frames_loop_log_bound (cv : Cv2) (ticks : list Tick)
    (prev : option loc) (s : Globals) :
  (length (motion_events s) <= 20)%nat ->
  (length (motion_events (frames_loop cv ticks prev s).2) <= 20)%nat.
Proof.
  revert prev s. induction ticks as [|t rest IH]; intros prev s Hs; simpl.
  - exact Hs.
  - assert (Hb := loop_body_log_bound cv prev t s Hs).
    destruct (loop_body cv prev t s) as [[prev'| |e] s']; simpl in *.
    + apply IH. exact Hb.
    + exact Hb.
    + exact Hb.
Qed.

Lemma camera_not_available_events (cv : Cv2) (s : Globals) :
  motion_events (camera_not_available cv s) = motion_events s.
Proof. reflexivity. Qed.

Lemma generate_frames_log_bound (cv : Cv2) (open : OpenResult)
    (first : option Frame) (ticks : list Tick) (s : Globals) :
  (length (motion_events s) <= 20)%nat ->
  (length (motion_events (generate_frames cv open first ticks s).2) <= 20)%nat.
Proof.
  intros Hs. unfold generate_frames.
  assert (Hstart : forall s0 : Globals,
            motion_events s0 = motion_events s ->
            (length (motion_events
               (match first with
                | Some content =>
                  let '(prev_frame, s1) := alloc content s0 in
                  frames_loop cv ticks (Some prev_frame) s1
                | None => frames_loop cv ticks None s0
                end).2) <= 20)%nat).
  { intros s0 H0. destruct first as [content|]; simpl;
      apply frames_loop_log_bound; simpl; rewrite H0; exact Hs. }
  destruct (camera s) as [cam|].
  - apply Hstart. reflexivity.
  - destruct open as [cam|e].
    + destruct (isOpened cam); cbn [negb].
      * apply Hstart. reflexivity.
      * cbn [snd]. rewrite camera_not_available_events. exact Hs.
    + cbn [snd]. rewrite camera_not_available_events. exact Hs.
Qed.

Lemma loop_body_processed_events (cv : Cv2) (prev : loc) (t : Tick)
    (s : Globals) (content : Frame) :
  tk_read t = Some content ->
  frame_count s mod 2 = 0 ->
  motion_events (loop_body cv (Some prev) t s).2
  = if (detect_motion cv (load prev (alloc content s).2) content).1.1
       && alert_due (last_motion_time s) (tk_time t)
    then take 20 (new_event t :: motion_events s)
    else motion_events s.
Proof.
  intros Hr Heven.
  destruct (detect_motion cv (load prev (alloc content s).2) content)
    as [[motion thresh] contours] eqn:Hd.
  rewrite (loop_body_processed _ _ _ _ _ _ _ _ Hr Heven Hd).
  rewrite publish_eq. cbn [fst snd motion_events set_frame_count
    set_output_frame set_heap].
  rewrite handle_motion_events. cbn [motion_events last_motion_time
    set_heap].
  reflexivity.
Qed.

Lemma loop_body_unprocessed_events (cv : Cv2) (prev : option loc)
    (t : Tick) (s : Globals) :
  tk_read t = None \/ frame_count s mod 2 <> 0 \/ prev = None ->
  motion_events (loop_body cv prev t s).2 = motion_events s.
Proof.
  intros Hcase.
  destruct (tk_read t) as [content|] eqn:Hr.
  - destruct (Z.eq_dec (frame_count s mod 2) 0) as [Heven|Hodd].
    + destruct Hcase as [H | [H | ->]]; [discriminate | contradiction |].
      rewrite (loop_body_no_prev _ _ _ _ Hr Heven). reflexivity.
    + rewrite (loop_body_skipped _ _ _ _ _ Hr Hodd). reflexivity.
  - rewrite (loop_body_break _ _ _ _ Hr). reflexivity.
Qed.

(** C2. Whatever the camera delivers and whenever, the event log holds at
    most 20 entries after every pass. A pass that examines its frame,
    detects motion and is due for an alert makes the log the first 20
    entries of the new event followed by the old log: the new event is at
    the head, the old entries keep their order behind it, and what is
    dropped is the end of the old log. Every other pass leaves the log as
    it is. *)
Theorem event_log_capped :
  (forall (cv : Cv2) (open : OpenResult) (first : option Frame)
          (ticks : list Tick),
     (length (motion_events
        (generate_frames cv open first ticks initial_globals).2) <= 20)%nat)
  /\ (forall (cv : Cv2) (prev : loc) (t : Tick) (s : Globals)
             (content : Frame),
        tk_read t = Some content ->
        frame_count s mod 2 = 0 ->
        (detect_motion cv (load prev (alloc content s).2) content).1.1
          = true ->
        alert_due (last_motion_time s) (tk_time t) = true ->
        motion_events (loop_body cv (Some prev) t s).2
          = take 20 (new_event t :: motion_events s)
        /\ exists evicted : list Event,
             motion_events (loop_body cv (Some prev) t s).2 ++ evicted
               = new_event t :: motion_events s
             /\ length evicted = (length (motion_events s) - 19)%nat)
  /\ (forall (cv : Cv2) (prev : loc) (t : Tick) (s : Globals)
             (content : Frame),
        tk_read t = Some content ->
        frame_count s mod 2 = 0 ->
        (detect_motion cv (load prev (alloc content s).2) content).1.1
          && alert_due (last_motion_time s) (tk_time t) = false ->
        motion_events (loop_body cv (Some prev) t s).2 = motion_events s)
  /\ (forall (cv : Cv2) (prev : option loc) (t : Tick) (s : Globals),
        tk_read t = None \/ frame_count s mod 2 <> 0 \/ prev = None ->
        motion_events (loop_body cv prev t s).2 = motion_events s).
Proof.
  split; [|split; [|split]].
  - intros cv open first ticks. apply generate_frames_log_bound.
    simpl. lia.
  - intros cv prev t s content Hr Heven Hm Hdue.
    rewrite (loop_body_processed_events cv prev t s content Hr Heven).
    rewrite Hm, Hdue. cbn [andb]. split; [reflexivity|].
    exists (drop 20 (new_event t :: motion_events s)).
    split; [apply take_drop|].
    rewrite length_drop. cbn [length]. lia.
  - intros cv prev t s content Hr Heven Hno.
    rewrite (loop_body_processed_events cv prev t s content Hr Heven), Hno.
    reflexivity.
  - intros cv prev t s. apply loop_body_unprocessed_events.
Qed.

Lemma event_log_capped_witness :
  let dark := Sample.solid 80 80 (0, 0, 0) in
  let bright := Sample.solid 80 80 (255, 255, 255) in
  let s := (alloc dark initial_globals).2 in
  let t := sample_tick (Some bright) 100%Q true in
  motion_events (loop_body Sample.cv (Some 0%nat) t s).2
    = take 20 (new_event t :: motion_events s)
  /\ motion_events
       (loop_body Sample.cv (Some 0%nat) (sample_tick (Some dark) 100%Q true)
          s).2
     = motion_events s
  /\ motion_events (loop_body Sample.cv None (sample_tick None 100%Q true) s).2
     = motion_events s.
Proof.
  intros dark bright s t.
  destruct event_log_capped as (_ & Hnew & Hquiet & Hskip).
  split; [|split].
  - refine (proj1 (Hnew Sample.cv 0%nat t s bright eq_refl eq_refl _ eq_refl)).
    vm_compute. reflexivity.
  - apply (Hquiet Sample.cv 0%nat (sample_tick (Some dark) 100%Q true) s dark
             eq_refl eq_refl).
    vm_compute. reflexivity.
  - apply (Hskip Sample.cv None (sample_tick None 100%Q true) s).
    left. reflexivity.
Defined.

(** ** The published frame *)

Lemma latest_publish (img : loc) (s : Globals) :
  latest (publish img s) = Some (load img s).
Proof.
  rewrite publish_eq. unfold latest. simpl. apply heap_lookup_new.
Qed.

Lemma latest_alloc (v : Frame) (s : Globals) :
  output_frame_allocated s -> latest (alloc v s).2 = latest s.
Proof.
  intros Hs. unfold latest, alloc. simpl.
  destruct (output_frame s) as [l|] eqn:Ho; simpl; [|reflexivity].
  apply lookup_app_l. apply Hs. exact Ho.
Qed.

Lemma loop_body_latest_published (cv : Cv2) (prev : loc) (t : Tick)
    (s : Globals) (content : Frame) :
  tk_read t = Some content ->
  frame_count s mod 2 = 0 ->
  latest (loop_body cv (Some prev) t s).2
  = Some (annotated_frame cv content
            (detect_motion cv (load prev (alloc content s).2) content).2
            (tk_timestamp t)).
Proof.
  intros Hr Heven.
  destruct (detect_motion cv (load prev (alloc content s).2) content)
    as [[motion thresh] contours] eqn:Hd.
  rewrite (loop_body_processed _ _ _ _ _ _ _ _ Hr Heven Hd).
  cbn [snd]. unfold latest. cbn [output_frame heap set_frame_count].
  change (latest (publish (S (S (length (heap s))))
            (handle_motion (length (heap s)) motion t
               (set_heap
                  (heap s
                   ++ [content; content;
                       annotated_frame cv content contours (tk_timestamp t)])
                  s)))
          = Some (annotated_frame cv content contours (tk_timestamp t))).
  rewrite latest_publish. f_equal. unfold load.
  rewrite handle_motion_heap. cbn [heap set_heap].
  rewrite (lookup_app_r (heap s)) by lia.
  replace (S (S (length (heap s))) - length (heap s))%nat with 2%nat by lia.
  reflexivity.
Qed.

Lemma loop_body_latest_kept (cv : Cv2) (prev : option loc) (t : Tick)
    (s : Globals) :
  output_frame_allocated s ->
  tk_read t = None \/ frame_count s mod 2 <> 0 \/ prev = None ->
  latest (loop_body cv prev t s).2 = latest s.
Proof.
  intros Hs Hcase.
  destruct (tk_read t) as [content|] eqn:Hr.
  - destruct (Z.eq_dec (frame_count s mod 2) 0) as [Heven|Hodd].
    + destruct Hcase as [H | [H | ->]]; [discriminate | contradiction |].
      rewrite (loop_body_no_prev _ _ _ _ Hr Heven).
      apply (latest_alloc content s Hs).
    + rewrite (loop_body_skipped _ _ _ _ _ Hr Hodd).
      apply (latest_alloc content s Hs).
  - rewrite (loop_body_break _ _ _ _ Hr). reflexivity.
Qed.

Lemma loop_body_output_allocated (cv : Cv2) (prev : option loc) (t : Tick)
    (s : Globals) :
  output_frame_allocated s ->
  output_frame_allocated (loop_body cv prev t s).2.
Proof.
  intros Hs.
  destruct (tk_read t) as [content|] eqn:Hr.
  - destruct (Z.eq_dec (frame_count s mod 2) 0) as [Heven|Hodd].
    + destruct prev as [prev|].
      * destruct (detect_motion cv (load prev (alloc content s).2) content)
          as [[motion thresh] contours] eqn:Hd.
        rewrite (loop_body_processed _ _ _ _ _ _ _ _ Hr Heven Hd).
        rewrite publish_eq. intros l. cbn [snd output_frame heap
          set_frame_count set_output_frame set_heap].
        intros Hl. injection Hl as <-. rewrite length_app. simpl. lia.
      * rewrite (loop_body_no_prev _ _ _ _ Hr Heven).
        intros l Hl. specialize (Hs l Hl). simpl. rewrite length_app. lia.
    + rewrite (loop_body_skipped _ _ _ _ _ Hr Hodd).
      intros l Hl. specialize (Hs l Hl). simpl. rewrite length_app. lia.
  - rewrite (loop_body_break _ _ _ _ Hr). exact Hs.
Qed.

Lemma latest_store_source (img : loc) (v : Frame) (s : Globals) :
  (img < length (heap s))%nat ->
  latest (store img v (publish img s)) = Some (load img s).
Proof.
  intros Hl. rewrite publish_eq. unfold latest, store. simpl.
  rewrite list_lookup_insert_ne by lia. apply heap_lookup_new.
Qed.

Lemma video_feed_step_latest (cv : Cv2) (s : Globals) :
  video_feed_step cv s
  = match latest s with
    | Some img => encoded_part cv img
    | None => None
    end.
Proof.
  unfold video_feed_step, encoded_part.
  destruct (latest s) as [img|]; [|reflexivity].
  destruct (imencode_jpg cv img) as [[|] enc]; reflexivity.
Qed.

(** C5. Nothing is published when the module is loaded, and a stream
    consumer then finds nothing to send. After [publish], a reader finds
    the content that was published, also when the array it was copied
    from is drawn on afterwards, and the consumer sends the encoding of
    that content. A pass of the acquisition loop that processes its frame
    publishes the annotated frame, which is what readers find and what
    the consumer sends; every other pass leaves what readers find and what
    the consumer sends unchanged. *)
Theorem published_frame_visible :
  (latest initial_globals = None
   /\ forall cv : Cv2, video_feed_step cv initial_globals = None)
  /\ (forall (img : loc) (s : Globals),
        latest (publish img s) = Some (load img s))
  /\ (forall (img : loc) (v : Frame) (s : Globals),
        (img < length (heap s))%nat ->
        latest (store img v (publish img s)) = Some (load img s))
  /\ (forall (cv : Cv2) (prev : loc) (t : Tick) (s : Globals)
             (content : Frame),
        tk_read t = Some content ->
        frame_count s mod 2 = 0 ->
        latest (loop_body cv (Some prev) t s).2
        = Some (annotated_frame cv content
                  (detect_motion cv
                     (load prev (alloc content s).2) content).2
                  (tk_timestamp t)))
  /\ (forall (cv : Cv2) (prev : option loc) (t : Tick) (s : Globals),
        output_frame_allocated s ->
        output_frame_allocated (loop_body cv prev t s).2
        /\ (tk_read t = None \/ frame_count s mod 2 <> 0 \/ prev = None ->
            latest (loop_body cv prev t s).2 = latest s))
  /\ (forall (cv : Cv2) (img : loc) (s : Globals),
        video_feed_step cv (publish img s) = encoded_part cv (load img s))
  /\ (forall (cv : Cv2) (img : loc) (v : Frame) (s : Globals),
        (img < length (heap s))%nat ->
        video_feed_step cv (store img v (publish img s))
        = encoded_part cv (load img s))
  /\ (forall (cv : Cv2) (prev : loc) (t : Tick) (s : Globals)
             (content : Frame),
        tk_read t = Some content ->
        frame_count s mod 2 = 0 ->
        video_feed_step cv (loop_body cv (Some prev) t s).2
        = encoded_part cv
            (annotated_frame cv content
               (detect_motion cv
                  (load prev (alloc content s).2) content).2
               (tk_timestamp t)))
  /\ (forall (cv : Cv2) (prev : option loc) (t : Tick) (s : Globals),
        output_frame_allocated s ->
        tk_read t = None \/ frame_count s mod 2 <> 0 \/ prev = None ->
        video_feed_step cv (loop_body cv prev t s).2 = video_feed_step cv s).
Proof.
  split; [split; reflexivity|].
  split; [exact latest_publish|].
  split; [exact latest_store_source|].
  split; [exact loop_body_latest_published|].
  split.
  { intros cv prev t s Hs. split.
    - apply loop_body_output_allocated. exact Hs.
    - apply loop_body_latest_kept. exact Hs. }
  split.
  { intros cv img s. rewrite video_feed_step_latest, latest_publish.
    reflexivity. }
  split.
  { intros cv img v s Hl.
    rewrite video_feed_step_latest, (latest_store_source img v s Hl).
    reflexivity. }
  split.
  { intros cv prev t s content Hr Heven.
    rewrite video_feed_step_latest,
      (loop_body_latest_published cv prev t s content Hr Heven).
    reflexivity. }
  intros cv prev t s Hs Hcase.
  rewrite !video_feed_step_latest,
    (loop_body_latest_kept cv prev t s Hs Hcase).
  reflexivity.
Qed.

Lemma initial_output_allocated : output_frame_allocated initial_globals.
Proof. intros l Hl. discriminate Hl. Qed.

Lemma published_frame_visible_witness :
  let f := Sample.solid 4 4 (0, 0, 0) in
  let s := (alloc f initial_globals).2 in
  let t := sample_tick (Some f) 100%Q true in
  latest (loop_body Sample.cv (Some 0%nat) t s).2
  = Some (annotated_frame Sample.cv f
            (detect_motion Sample.cv (load 0%nat (alloc f s).2) f).2
            (tk_timestamp t))
  /\ latest (store 0%nat [] (publish 0%nat s)) = Some (load 0%nat s)
  /\ latest (loop_body Sample.cv None (sample_tick None 100%Q true)
               initial_globals).2
     = latest initial_globals
  /\ video_feed_step Sample.cv (store 0%nat [] (publish 0%nat s))
     = encoded_part Sample.cv (load 0%nat s)
  /\ video_feed_step Sample.cv (loop_body Sample.cv (Some 0%nat) t s).2
     = encoded_part Sample.cv
         (annotated_frame Sample.cv f
            (detect_motion Sample.cv (load 0%nat (alloc f s).2) f).2
            (tk_timestamp t))
  /\ video_feed_step Sample.cv
       (loop_body Sample.cv None (sample_tick None 100%Q true)
          initial_globals).2
     = video_feed_step Sample.cv initial_globals.
Proof.
  intros f s t.
  destruct published_frame_visible
    as (_ & _ & Hsrc & Hpub & Hkeep & _ & Hfsrc & Hfpub & Hfkeep).
  split; [|split; [|split; [|split; [|split]]]].
  - apply (Hpub Sample.cv 0%nat t s f); reflexivity.
  - apply (Hsrc 0%nat [] s). simpl. lia.
  - apply (Hkeep Sample.cv None (sample_tick None 100%Q true)
             initial_globals initial_output_allocated).
    left. reflexivity.
  - apply (Hfsrc Sample.cv 0%nat [] s). simpl. lia.
  - apply (Hfpub Sample.cv 0%nat t s f); reflexivity.
  - apply (Hfkeep Sample.cv None (sample_tick None 100%Q true)
             initial_globals initial_output_allocated).
    left. reflexivity.
Defined.

(** ** Annotation and snapshots *)

Lemma annotate_keeps_arrays (cv : Cv2) (frame : loc)
    (contours : list Contour) (ts : string) (s : Globals) (l : loc) :
  (frame < length (heap s))%nat ->
  (l < length (heap s))%nat ->
  heap (annotate cv frame contours ts s).2 !! l = heap s !! l.
Proof.
  intros Hf Hl. rewrite annotate_eq by exact Hf. simpl.
  apply lookup_app_l. exact Hl.
Qed.

Lemma loop_body_frame_kept (cv : Cv2) (prev : loc) (t : Tick) (s : Globals)
    (content : Frame) :
  tk_read t = Some content ->
  frame_count s mod 2 = 0 ->
  heap (loop_body cv (Some prev) t s).2 !! length (heap s) = Some content.
Proof.
  intros Hr Heven.
  destruct (detect_motion cv (load prev (alloc content s).2) content)
    as [[motion thresh] contours] eqn:Hd.
  rewrite (loop_body_processed _ _ _ _ _ _ _ _ Hr Heven Hd).
  rewrite publish_eq. cbn [snd heap set_frame_count set_output_frame
    set_heap].
  rewrite handle_motion_heap. cbn [heap set_heap].
  rewrite lookup_app_l by (rewrite length_app; simpl; lia).
  rewrite (lookup_app_r (heap s)) by lia.
  rewrite Nat.sub_diag. reflexivity.
Qed.

Lemma loop_body_snapshot (cv : Cv2) (prev : loc) (t : Tick) (s : Globals)
    (content : Frame) :
  tk_read t = Some content ->
  frame_count s mod 2 = 0 ->
  (detect_motion cv (load prev (alloc content s).2) content).1.1 = true ->
  alert_due (last_motion_time s) (tk_time t) = true ->
  tk_imwrite_ok t = true ->
  files (loop_body cv (Some prev) t s).2 !! path (new_event t)
  = Some content.
Proof.
  intros Hr Heven Hm Hdue Hok.
  destruct (detect_motion cv (load prev (alloc content s).2) content)
    as [[motion thresh] contours] eqn:Hd.
  cbn [fst] in Hm. subst motion.
  rewrite (loop_body_processed _ _ _ _ _ _ _ _ Hr Heven Hd).
  rewrite publish_eq. cbn [snd files set_frame_count set_output_frame
    set_heap].
  rewrite handle_motion_files. cbn [last_motion_time files set_heap].
  rewrite Hdue, Hok. cbn [andb].
  rewrite lookup_insert_eq. f_equal. unfold load. cbn [heap set_heap].
  rewrite (lookup_app_r (heap s)) by lia. rewrite Nat.sub_diag.
  reflexivity.
Qed.

(** C8. Annotation leaves every existing array as it is: it draws on a
    copy. In a pass that processes its frame, the array read from the
    camera still holds what was read when the pass ends, readers find the
    annotated copy, and when the pass creates an event and the write
    succeeds, the file of the event holds the frame as read. *)
Theorem snapshot_is_raw_frame :
  (forall (cv : Cv2) (frame : loc) (contours : list Contour) (ts : string)
          (s : Globals) (l : loc),
     (frame < length (heap s))%nat ->
     (l < length (heap s))%nat ->
     heap (annotate cv frame contours ts s).2 !! l = heap s !! l)
  /\ (forall (cv : Cv2) (prev : loc) (t : Tick) (s : Globals)
             (content : Frame),
        tk_read t = Some content ->
        frame_count s mod 2 = 0 ->
        let found := detect_motion cv (load prev (alloc content s).2) content in
        let s' := (loop_body cv (Some prev) t s).2 in
        heap s' !! length (heap s) = Some content
        /\ latest s'
           = Some (annotated_frame cv content found.2 (tk_timestamp t))
        /\ (found.1.1 = true ->
            alert_due (last_motion_time s) (tk_time t) = true ->
            tk_imwrite_ok t = true ->
            motion_events s' = new_event t :: take 19 (motion_events s)
            /\ files s' !! path (new_event t) = Some content)).
Proof.
  split; [exact annotate_keeps_arrays|].
  intros cv prev t s content Hr Heven found s'.
  split; [apply loop_body_frame_kept; assumption|].
  split; [apply loop_body_latest_published; assumption|].
  intros Hm Hdue Hok. split.
  - subst s' found.
    destruct (detect_motion cv (load prev (alloc content s).2) content)
      as [[motion thresh] contours] eqn:Hd.
    cbn [fst] in Hm. subst motion.
    rewrite (loop_body_processed _ _ _ _ _ _ _ _ Hr Heven Hd).
    rewrite publish_eq. cbn [snd motion_events set_frame_count
      set_output_frame set_heap].
    rewrite handle_motion_events. cbn [last_motion_time motion_events
      set_heap].
    rewrite Hdue. reflexivity.
  - apply loop_body_snapshot; assumption.
Qed.

Lemma snapshot_is_raw_frame_witness :
  let dark := Sample.solid 80 80 (0, 0, 0) in
  let bright := Sample.solid 80 80 (255, 255, 255) in
  let s := (alloc dark initial_globals).2 in
  let t := sample_tick (Some bright) 100%Q true in
  let s' := (loop_body Sample.cv (Some 0%nat) t s).2 in
  heap (annotate Sample.cv 0%nat [] "12:00" s).2 !! 0%nat = heap s !! 0%nat
  /\ heap s' !! length (heap s) = Some bright
  /\ motion_events s' = new_event t :: take 19 (motion_events s)
  /\ files s' !! path (new_event t) = Some bright.
Proof.
  intros dark bright s t s'.
  destruct snapshot_is_raw_frame as (Hann & Hpass).
  split.
  - apply (Hann Sample.cv 0%nat [] "12:00" s 0%nat); simpl; lia.
  - destruct (Hpass Sample.cv 0%nat t s bright eq_refl eq_refl)
      as (Hkept & _ & Hevent).
    split; [exact Hkept|].
    apply Hevent.
    + vm_compute. reflexivity.
    + reflexivity.
    + reflexivity.
Defined.

(** ** Camera not available *)

Lemma camera_not_available_eq (cv : Cv2) (s : Globals) :
  camera_not_available cv s
  = set_output_frame (Some (S (length (heap s))))
      (set_heap (heap s ++ [placeholder_frame cv; placeholder_frame cv]) s).
Proof.
  unfold camera_not_available, placeholder_frame, alloc, store.
  cbn [heap set_heap].
  set (zeros := repeat (repeat (0, 0, 0) 640) 480).
  rewrite publish_eq. unfold load. cbn [heap set_heap].
  rewrite heap_lookup_new. cbn [default].
  rewrite heap_insert_new, heap_lookup_new. cbn [default].
  rewrite length_app. cbn [length]. rewrite Nat.add_1_r.
  rewrite <- app_assoc. reflexivity.
Qed.

Lemma latest_camera_not_available (cv : Cv2) (s : Globals) :
  latest (camera_not_available cv s) = Some (placeholder_frame cv).
Proof.
  rewrite camera_not_available_eq. unfold latest.
  cbn [output_frame heap set_output_frame set_heap mbind option_bind].
  rewrite (lookup_app_r (heap s)) by lia.
  replace (S (length (heap s)) - length (heap s))%nat with 1%nat by lia.
  reflexivity.
Qed.

(** C9. When the camera cannot be opened, because [cv2.VideoCapture]
    raises or because the capture is not opened, [generate_frames] prints
    a diagnostic, publishes the placeholder frame (black, with the text
    "Camera not available") and returns; readers find that frame from
    then on, and a stream consumer sends it whenever it can be encoded. *)
Theorem camera_unavailable_placeholder (cv : Cv2) (open : OpenResult)
    (first : option Frame) (ticks : list Tick) (s : Globals) :
  camera s = None ->
  match open with
  | Opened cam => isOpened cam = false
  | OpenError _ => True
  end ->
  let s' := (generate_frames cv open first ticks s).2 in
  (generate_frames cv open first ticks s).1 = Returned
  /\ latest s' = Some (placeholder_frame cv)
  /\ video_feed_step cv s'
     = (if (imencode_jpg cv (placeholder_frame cv)).1
        then Some (stream_part (imencode_jpg cv (placeholder_frame cv)).2)
        else None)
  /\ (exists line : string, stdout s' = stdout s ++ [line])
  /\ motion_events s' = motion_events s.
Proof.
  intros Hcam Hopen s'. subst s'. unfold generate_frames. rewrite Hcam.
  assert (Hfeed : forall s0 : Globals,
            latest s0 = Some (placeholder_frame cv) ->
            video_feed_step cv s0
            = (if (imencode_jpg cv (placeholder_frame cv)).1
               then Some (stream_part
                            (imencode_jpg cv (placeholder_frame cv)).2)
               else None)).
  { intros s0 H0. unfold video_feed_step. rewrite H0.
    destruct (imencode_jpg cv (placeholder_frame cv)) as [[|] enc];
      reflexivity. }
  destruct open as [cam|e].
  - rewrite Hopen. cbn [negb fst snd].
    split; [reflexivity|].
    split; [apply latest_camera_not_available|].
    split; [apply Hfeed, latest_camera_not_available|].
    split; [|reflexivity].
    exists "Error: Could not open camera.". reflexivity.
  - cbn [fst snd].
    split; [reflexivity|].
    split; [apply latest_camera_not_available|].
    split; [apply Hfeed, latest_camera_not_available|].
    split; [|reflexivity].
    exists ("Camera error: " +:+ e). reflexivity.
Qed.

Lemma camera_unavailable_placeholder_witness :
  camera initial_globals = None
  /\ latest (generate_frames Sample.cv (Opened {| isOpened := false |})
               None [] initial_globals).2
     = Some (placeholder_frame Sample.cv)
  /\ latest (generate_frames Sample.cv (OpenError "no device")
               None [] initial_globals).2
     = Some (placeholder_frame Sample.cv).
Proof.
  split; [reflexivity|]. split.
  - apply (camera_unavailable_placeholder Sample.cv
             (Opened {| isOpened := false |}) None [] initial_globals
             eq_refl eq_refl).
  - apply (camera_unavailable_placeholder Sample.cv
             (OpenError "no device") None [] initial_globals eq_refl I).
Defined.

(** ** Failures inside the loop *)

(** C6 as stated fails. The write of the snapshot fails in the only pass;
    the loop goes on, but the event is in the log all the same, no file
    exists, nothing is printed, and with the initial settings the alert
    threads print nothing either. *)
Lemma snapshot_failure_counterexample :
  let dark := Sample.solid 80 80 (0, 0, 0) in
  let bright := Sample.solid 80 80 (255, 255, 255) in
  let t := sample_tick (Some bright) 100%Q false in
  let r := generate_frames Sample.cv (Opened {| isOpened := true |})
             (Some dark) [t] initial_globals in
  r.1 = Running (Some 2%nat)
  /\ motion_events r.2 = [new_event t]
  /\ files r.2 !! path (new_event t) = None
  /\ stdout r.2 = []
  /\ forall (a : Alert) (failure : option string),
       run_alert initial_settings a failure = (false, []).
Proof.
  vm_compute. repeat split.
  intros [image_path | image_url] failure; reflexivity.
Qed.

(** C6, as the code has it. When [cv2.imwrite] fails in a pass that
    raises an alert, the pass ends normally and the loop goes on with the
    next one; the event is put at the head of the log as usual, no file
    appears and nothing is printed. *)
Theorem snapshot_failure_keeps_event (cv : Cv2) (prev : loc) (t : Tick)
    (rest : list Tick) (s : Globals) (content : Frame) :
  tk_read t = Some content ->
  frame_count s mod 2 = 0 ->
  (detect_motion cv (load prev (alloc content s).2) content).1.1 = true ->
  alert_due (last_motion_time s) (tk_time t) = true ->
  tk_imwrite_ok t = false ->
  let s' := (loop_body cv (Some prev) t s).2 in
  loop_body cv (Some prev) t s = (Next (Some (S (length (heap s)))), s')
  /\ frames_loop cv (t :: rest) (Some prev) s
     = frames_loop cv rest (Some (S (length (heap s)))) s'
  /\ motion_events s' = new_event t :: take 19 (motion_events s)
  /\ files s' = files s
  /\ stdout s' = stdout s.
Proof.
  intros Hr Heven Hm Hdue Hok s'.
  destruct (detect_motion cv (load prev (alloc content s).2) content)
    as [[motion thresh] contours] eqn:Hd.
  cbn [fst] in Hm. subst motion.
  assert (Hbody := loop_body_processed _ _ _ _ _ _ _ _ Hr Heven Hd).
  assert (Hpair : loop_body cv (Some prev) t s
                  = (Next (Some (S (length (heap s)))), s')).
  { subst s'. rewrite Hbody. reflexivity. }
  split; [exact Hpair|].
  split; [cbn [frames_loop]; rewrite Hpair; reflexivity|].
  subst s'. rewrite Hbody, publish_eq.
  cbn [snd motion_events files stdout set_frame_count set_output_frame
    set_heap].
  rewrite handle_motion_events, handle_motion_files, handle_motion_stdout.
  cbn [last_motion_time motion_events files stdout set_heap].
  rewrite Hdue, Hok. repeat split.
Qed.

Lemma snapshot_failure_keeps_event_witness :
  let dark := Sample.solid 80 80 (0, 0, 0) in
  let bright := Sample.solid 80 80 (255, 255, 255) in
  let s := (alloc dark initial_globals).2 in
  let t := sample_tick (Some bright) 100%Q false in
  let s' := (loop_body Sample.cv (Some 0%nat) t s).2 in
  tk_imwrite_ok t = false
  /\ motion_events s' = new_event t :: take 19 (motion_events s)
  /\ files s' = files s
  /\ stdout s' = stdout s.
Proof.
  intros dark bright s t s'.
  split; [reflexivity|].
  refine (proj2 (proj2 (snapshot_failure_keeps_event Sample.cv 0%nat t []
                          s bright eq_refl eq_refl _ eq_refl eq_refl))).
  vm_compute. reflexivity.
Defined.

(** C7 as stated fails. One read fails and the next one would succeed;
    [generate_frames] returns at the failed read and never publishes the
    frame that a loop skipping the failure publishes. *)
Lemma transient_read_failure_counterexample :
  let f := Sample.solid 4 4 (0, 0, 0) in
  let failed := sample_tick None 100%Q true in
  let good := sample_tick (Some f) 101%Q true in
  let open := Opened {| isOpened := true |} in
  let stopped :=
    generate_frames Sample.cv open (Some f) [failed; good] initial_globals in
  let skipping :=
    generate_frames Sample.cv open (Some f) [good] initial_globals in
  stopped.1 = Returned
  /\ latest stopped.2 = None
  /\ frame_count stopped.2 = 0
  /\ skipping.1 = Running (Some 2%nat)
  /\ latest skipping.2 <> None
  /\ frame_count skipping.2 = 1.
Proof.
  vm_compute. repeat split. discriminate.
Qed.

(** C7, as the code has it. The loop ends at the first read that fails,
    whatever the camera would deliver afterwards, and leaves the state as
    it is. *)
Theorem read_failure_ends_loop (cv : Cv2) (t : Tick) (rest : list Tick)
    (prev : option loc) (s : Globals) :
  tk_read t = None ->
  loop_body cv prev t s = (Break, s)
  /\ frames_loop cv (t :: rest) prev s = (Returned, s).
Proof.
  intros Hr. assert (Hb := loop_body_break cv prev t s Hr).
  split; [exact Hb|]. cbn [frames_loop]. rewrite Hb. reflexivity.
Qed.

Lemma read_failure_ends_loop_witness :
  let f := Sample.solid 4 4 (0, 0, 0) in
  let failed := sample_tick None 100%Q true in
  let good := sample_tick (Some f) 101%Q true in
  tk_read failed = None
  /\ frames_loop Sample.cv [failed; good] None initial_globals
     = (Returned, initial_globals).
Proof.
  intros f failed good. split; [reflexivity|].
  apply (read_failure_ends_loop Sample.cv failed [good] None
           initial_globals eq_refl).
Defined.

(** ** Settings *)

Lemma form_truthy_absent_or_empty (form : gmap string string)
    (key : string) :
  form !! key = None \/ form !! key = Some "" ->
  form_truthy form key = false.
Proof. intros [H | H]; unfold form_truthy; rewrite H; reflexivity. Qed.

(** C10 as stated fails. The port field is submitted empty, as a browser
    does for an empty number field; [int] raises, and the submitted user
    name is not stored. *)
Lemma update_settings_counterexample :
  let form : gmap string string :=
    <["smtp_port" := ""]> {["email_username" := "alice"]} in
  let r := update_settings Sample.py_int form initial_settings in
  form !! "email_password" = None
  /\ form_get form "email_username" = "alice"
  /\ r.1 = Raises "ValueError"
  /\ Email.username (email r.2) = "".
Proof. vm_compute. repeat split. Qed.

(** C10, as the code has it. A password field that is absent or empty
    leaves the stored password as it is, and likewise the Twilio
    token. When the port field is absent or a string that [int] accepts,
    every other field takes the submitted value, with the defaults of the
    handler for absent fields. *)
Theorem update_settings_fields (py_int : string -> option Z)
    (form : gmap string string) (settings : Settings) :
  (form !! "email_password" = None \/ form !! "email_password" = Some "" ->
   Email.password (email (update_settings py_int form settings).2)
   = Email.password (email settings))
  /\ (form !! "twilio_auth_token" = None
      \/ form !! "twilio_auth_token" = Some "" ->
      Twilio.auth_token (twilio (update_settings py_int form settings).2)
      = Twilio.auth_token (twilio settings))
  /\ (forall port : Z,
        match form !! "smtp_port" with
        | Some v => py_int v
        | None => Some 587
        end = Some port ->
        update_settings py_int form settings
        = (Returns {| flashed := ("Settings updated successfully!", "success");
                      redirect := "settings_page" |},
           {| email :=
                {| Email.enabled := form_has form "email_enabled";
                   Email.smtp_server := form_get form "smtp_server";
                   Email.smtp_port := port;
                   Email.username := form_get form "email_username";
                   Email.password :=
                     if form_truthy form "email_password"
                     then form_get form "email_password"
                     else Email.password (email settings);
                   Email.recipient := form_get form "email_recipient" |};
              twilio :=
                {| Twilio.enabled := form_has form "twilio_enabled";
                   Twilio.account_sid := form_get form "twilio_account_sid";
                   Twilio.auth_token :=
                     if form_truthy form "twilio_auth_token"
                     then form_get form "twilio_auth_token"
                     else Twilio.auth_token (twilio settings);
                   Twilio.from_number := form_get form "twilio_from_number";
                   Twilio.to_number := form_get form "twilio_to_number" |}
           |}))
  /\ (forall v : string,
        form !! "smtp_port" = Some v ->
        py_int v = None ->
        update_settings py_int form settings
        = (Raises "ValueError",
           {| email :=
                Email.set_smtp_server (form_get form "smtp_server")
                  (Email.set_enabled (form_has form "email_enabled")
                     (email settings));
              twilio := twilio settings |})).
Proof.
  split; [|split; [|split]].
  - intros H. apply form_truthy_absent_or_empty in H.
    unfold update_settings. rewrite H.
    destruct (match form !! "smtp_port" with
              | Some v => py_int v
              | None => Some 587
              end); reflexivity.
  - intros H. apply form_truthy_absent_or_empty in H.
    unfold update_settings. rewrite H.
    destruct (match form !! "smtp_port" with
              | Some v => py_int v
              | None => Some 587
              end); reflexivity.
  - intros port Hport. unfold update_settings. rewrite Hport.
    destruct (form_truthy form "email_password");
      destruct (form_truthy form "twilio_auth_token"); reflexivity.
  - intros v Hv Hint. unfold update_settings. rewrite Hv, Hint.
    reflexivity.
Qed.

Lemma update_settings_fields_witness :
  let form : gmap string string :=
    <["smtp_port" := "2525"]> {["email_username" := "alice"]} in
  let after := (update_settings Sample.py_int form
                  {| email := Email.set_password "secret"
                                (email initial_settings);
                     twilio := twilio initial_settings |}).2 in
  form !! "email_password" = None
  /\ Email.password (email after) = "secret"
  /\ Email.username (email after) = "alice"
  /\ Email.smtp_port (email after) = 2525.
Proof.
  intros form after.
  destruct (update_settings_fields Sample.py_int form
              {| email := Email.set_password "secret"
                            (email initial_settings);
                 twilio := twilio initial_settings |})
    as (Hpw & _ & Hall & _).
  assert (Habsent : form !! "email_password" = None)
    by (vm_compute; reflexivity).
  split; [exact Habsent|].
  split; [exact (Hpw (or_introl Habsent))|].
  subst after. rewrite (Hall 2525 ltac:(vm_compute; reflexivity)).
  split; reflexivity.
Defined.

(** * Further properties of the code *)

(** ** Names of uploaded files *)

Lemma contains_app (sep : ascii) (a b : string) :
  contains sep (a +:+ b) = contains sep a || contains sep b.
Proof.
  induction a as [|x a IH]; simpl; [reflexivity|].
  destruct (Ascii.eqb x sep); [reflexivity | exact IH].
Qed.

Lemma rsplit1_no_sep (sep : ascii) (s : string) :
  contains sep s = false -> rsplit1 sep s = [s].
Proof.
  induction s as [|x s IH]; simpl; [reflexivity|].
  destruct (Ascii.eqb x sep); [discriminate|].
  intros H. rewrite (IH H). reflexivity.
Qed.

Lemma rsplit1_last (sep : ascii) (h t : string) :
  contains sep t = false ->
  rsplit1 sep (h +:+ String sep t) = [h; t].
Proof.
  intros Ht. induction h as [|x h IH]; simpl.
  - rewrite (rsplit1_no_sep sep t Ht), Ascii.eqb_refl. reflexivity.
  - rewrite IH. reflexivity.
Qed.

Lemma contains_split (sep : ascii) (s : string) :
  contains sep s = true ->
  exists h t : string, s = h +:+ String sep t /\ contains sep t = false.
Proof.
  induction s as [|x s IH]; simpl; [discriminate|].
  destruct (contains sep s) eqn:Hs.
  - intros _. destruct (IH eq_refl) as (h & t & -> & Ht).
    exists (String x h), t. split; [reflexivity | exact Ht].
  - destruct (Ascii.eqb_spec x sep) as [->|Hne]; [|discriminate].
    intros _. exists EmptyString, s. split; [reflexivity | exact Hs].
Qed.

Lemma lower_ascii_dot (a : ascii) :
  Ascii.eqb (lower_ascii a) "." = Ascii.eqb a ".".
Proof.
  destruct a as [[] [] [] [] [] [] [] []]; vm_compute; reflexivity.
Qed.

Lemma contains_dot_lower (s : string) :
  contains "." (lower s) = contains "." s.
Proof.
  induction s as [|x s IH]; simpl; [reflexivity|].
  rewrite lower_ascii_dot, IH. reflexivity.
Qed.

Lemma allowed_extension (x : string) :
  x ∈ ALLOWED_EXTENSIONS <-> x = "png" \/ x = "jpg" \/ x = "jpeg".
Proof.
  unfold ALLOWED_EXTENSIONS. rewrite !elem_of_union, !elem_of_singleton.
  tauto.
Qed.

Lemma allowed_extension_no_dot (ext : string) :
  lower ext ∈ ALLOWED_EXTENSIONS -> contains "." ext = false.
Proof.
  intros H. rewrite <- contains_dot_lower.
  apply allowed_extension in H as [-> | [-> | ->]]; reflexivity.
Qed.

Lemma allowed_file_split (stem ext : string) :
  contains "." ext = false ->
  allowed_file (stem +:+ "." +:+ ext)
  = bool_decide (lower ext ∈ ALLOWED_EXTENSIONS).
Proof.
  intros Hext. unfold allowed_file.
  change (stem +:+ "." +:+ ext) with (stem +:+ String "." ext).
  rewrite contains_app, (rsplit1_last "." stem ext Hext). simpl.
  rewrite orb_true_r. reflexivity.
Qed.

(** X1. A file name is allowed exactly when it is some stem, a dot and an
    extension whose lower case is [png], [jpg] or [jpeg]. *)
Theorem allowed_file_iff (filename : string) :
  allowed_file filename = true
  <-> exists stem ext : string,
        filename = stem +:+ "." +:+ ext
        /\ lower ext ∈ ALLOWED_EXTENSIONS.
Proof.
  split.
  - intros H. unfold allowed_file in H. apply andb_true_iff in H as [Hc H].
    destruct (contains_split "." filename Hc) as (h & t & -> & Ht).
    rewrite (rsplit1_last "." h t Ht) in H. simpl in H.
    exists h, t. split; [reflexivity|].
    apply bool_decide_eq_true in H. exact H.
  - intros (stem & ext & -> & Hext).
    rewrite allowed_file_split by (apply allowed_extension_no_dot, Hext).
    apply bool_decide_eq_true. exact Hext.
Qed.

(** X2. Only what follows the last dot counts, in any mix of upper and
    lower case; a name without a dot and a name that ends in a dot are
    refused. *)
Theorem allowed_file_last_extension :
  (forall filename : string,
     contains "." filename = false -> allowed_file filename = false)
  /\ (forall stem ext : string,
        contains "." ext = false ->
        allowed_file (stem +:+ "." +:+ ext)
        = bool_decide (lower ext ∈ ALLOWED_EXTENSIONS))
  /\ (forall stem : string, allowed_file (stem +:+ ".") = false).
Proof.
  split; [|split].
  - intros filename H. unfold allowed_file. rewrite H. reflexivity.
  - exact allowed_file_split.
  - intros stem. change (stem +:+ ".") with (stem +:+ "." +:+ "").
    rewrite (allowed_file_split stem EmptyString eq_refl).
    apply bool_decide_eq_false. intros H.
    apply allowed_extension in H as [H | [H | H]]; discriminate H.
Qed.

Lemma allowed_file_last_extension_witness :
  contains "." "JPG" = false
  /\ allowed_file ("evil.php" +:+ "." +:+ "JPG") = true
  /\ allowed_file "README" = false.
Proof.
  destruct allowed_file_last_extension as (Hnone & Hlast & _).
  split; [reflexivity|]. split.
  - rewrite (Hlast "evil.php" "JPG" eq_refl). vm_compute. reflexivity.
  - apply Hnone. reflexivity.
Defined.

Lemma allowed_file_iff_witness : allowed_file "photo.JPEG" = true.
Proof.
  apply allowed_file_iff. exists "photo", "JPEG".
  split; [reflexivity|]. apply allowed_extension. right. right. reflexivity.
Defined.

(** ** The entries of the event log *)

Lemma string_append_assoc (a b c : string) :
  a +:+ (b +:+ c) = (a +:+ b) +:+ c.
Proof.
  induction a as [|x a IH]; [reflexivity|].
  change (String x (a +:+ (b +:+ c)) = String x ((a +:+ b) +:+ c)).
  f_equal. exact IH.
Qed.

Lemma new_event_allowed (t : Tick) :
  allowed_file (image (new_event t)) = true
  /\ path (new_event t) = "static/captures/" +:+ image (new_event t).
Proof.
  split; [|reflexivity].
  assert (E : image (new_event t)
              = ("motion_" +:+ tk_filestamp t) +:+ "." +:+ "jpg")
    by exact (string_append_assoc "motion_" (tk_filestamp t) ".jpg").
  rewrite E, allowed_file_split by reflexivity.
  apply bool_decide_eq_true, allowed_extension. right. left. reflexivity.
Qed.

Section LogInvariant.

Variable P : Event -> Prop.
Hypothesis P_new : forall t : Tick, P (new_event t).

Lemma loop_body_log_invariant (cv : Cv2) (prev : option loc) (t : Tick)
    (s : Globals) :
  Forall P (motion_events s) ->
  Forall P (motion_events (loop_body cv prev t s).2).
Proof using P_new.
  intros Hs. destruct (loop_body_events cv prev t s) as [-> | ->];
    [exact Hs|].
  constructor; [apply P_new | apply Forall_take, Hs].
Qed.

Lemma frames_loop_log_invariant (cv : Cv2) (ticks : list Tick)
    (prev : option loc) (s : Globals) :
  Forall P (motion_events s) ->
  Forall P (motion_events (frames_loop cv ticks prev s).2).
Proof using P_new.
  revert prev s. induction ticks as [|t rest IH]; intros prev s Hs;
    simpl; [exact Hs|].
  assert (Hb := loop_body_log_invariant cv prev t s Hs).
  destruct (loop_body cv prev t s) as [[prev'| |e] s']; simpl in *;
    [apply IH|..]; exact Hb.
Qed.

Lemma generate_frames_log_invariant (cv : Cv2) (open : OpenResult)
    (first : option Frame) (ticks : list Tick) (s : Globals) :
  Forall P (motion_events s) ->
  Forall P (motion_events (generate_frames cv open first ticks s).2).
Proof using P_new.
  intros Hs. unfold generate_frames.
  assert (Hstart : forall s0 : Globals,
            motion_events s0 = motion_events s ->
            Forall P (motion_events
               (match first with
                | Some content =>
                  let '(prev_frame, s1) := alloc content s0 in
                  frames_loop cv ticks (Some prev_frame) s1
                | None => frames_loop cv ticks None s0
                end).2)).
  { intros s0 H0. destruct first as [content|]; simpl;
      apply frames_loop_log_invariant; simpl; rewrite H0; exact Hs. }
  destruct (camera s) as [cam|].
  - apply Hstart. reflexivity.
  - destruct open as [cam|e].
    + destruct (isOpened cam); cbn [negb].
      * apply Hstart. reflexivity.
      * cbn [snd]. rewrite camera_not_available_events. exact Hs.
    + cbn [snd]. rewrite camera_not_available_events. exact Hs.
Qed.

End LogInvariant.

(** X3. Whatever [generate_frames] observes, every entry of the event log
    names an image that [allowed_file] accepts, and its path is that image
    below [static/captures]. *)
Theorem logged_snapshots_allowed (cv : Cv2) (open : OpenResult)
    (first : option Frame) (ticks : list Tick) :
  Forall (fun e : Event =>
            allowed_file (image e) = true
            /\ path e = "static/captures/" +:+ image e)
    (motion_events (generate_frames cv open first ticks initial_globals).2).
Proof.
  apply generate_frames_log_invariant; [exact new_event_allowed|].
  constructor.
Qed.

(** ** Series of detections *)

Lemma handle_detections_cons (d : loc * Tick) (ds : list (loc * Tick))
    (s : Globals) :
  handle_detections (d :: ds) s
  = handle_detections ds (handle_motion d.1 true d.2 s).
Proof. reflexivity. Qed.

Lemma take_20_cons_take_19 (xs log : list Event) (e : Event) :
  take 20 (xs ++ e :: take 19 log) = take 20 (xs ++ e :: log).
Proof.
  rewrite !take_app. f_equal.
  destruct (20 - length xs)%nat as [|k] eqn:Hk; [reflexivity|].
  simpl. f_equal. rewrite take_take. f_equal. lia.
Qed.

(** X4. When each of a series of detections raises an alert, the log
    afterwards holds the 20 most recent of the new events and of the
    earlier entries, the newest first. *)
Theorem event_log_most_recent (ds : list (loc * Tick)) (s : Globals) :
  all_due (last_motion_time s) (map snd ds) = true ->
  (length (motion_events s) <= 20)%nat ->
  motion_events (handle_detections ds s)
  = take 20 (rev (map (fun d => new_event d.2) ds) ++ motion_events s).
Proof.
  revert s. induction ds as [|[f t] ds IH]; intros s Hdue Hlen.
  - simpl. rewrite take_ge by lia. reflexivity.
  - simpl in Hdue. apply andb_true_iff in Hdue as [Hd Hrest].
    rewrite handle_detections_cons. cbn [fst snd].
    assert (Hlog := handle_motion_events f true t s).
    assert (Hlast := handle_motion_last_motion_time f true t s).
    rewrite Hd in Hlog, Hlast. cbn [andb] in Hlog, Hlast.
    rewrite IH.
    + rewrite Hlog. cbn [map rev]. rewrite <- app_assoc. cbn [app].
      apply take_20_cons_take_19.
    + rewrite Hlast. exact Hrest.
    + rewrite Hlog. simpl. rewrite length_take. lia.
Qed.

Lemma event_log_most_recent_witness :
  let t1 := sample_tick None 100%Q true in
  let t2 := sample_tick None 106%Q true in
  motion_events (handle_detections [(0%nat, t1); (0%nat, t2)] initial_globals)
  = take 20 ([new_event t2; new_event t1] ++ []).
Proof.
  intros t1 t2.
  apply (event_log_most_recent [(0%nat, t1); (0%nat, t2)] initial_globals).
  - vm_compute. reflexivity.
  - simpl. lia.
Defined.

Lemma handle_detections_suppressed (ds : list (loc * Tick)) (s : Globals) :
  Forall (fun d => alert_due (last_motion_time s) (tk_time d.2) = false) ds ->
  handle_detections ds s = s.
Proof.
  induction 1 as [|[f t] ds Hd _ IH]; [reflexivity|].
  rewrite handle_detections_cons. cbn [fst snd] in *.
  rewrite (handle_motion_suppressed f t s Hd). exact IH.
Qed.

(** X5. Detections inside the cooldown change nothing; in particular they
    do not prolong it. After an alert at time [l] and any number of
    detections up to [l + 5], the first detection after [l + 5] raises the
    next alert. *)
Theorem suppressed_detections_keep_cooldown (ds : list (loc * Tick))
    (frame : loc) (t : Tick) (s : Globals) (l : Q) :
  last_motion_time s = Some l ->
  Forall (fun d => (tk_time d.2 <= l + 5)%Q) ds ->
  (l + 5 < tk_time t)%Q ->
  handle_detections ds s = s
  /\ motion_events (handle_motion frame true t (handle_detections ds s))
     = new_event t :: take 19 (motion_events s)
  /\ last_motion_time (handle_motion frame true t (handle_detections ds s))
     = Some (tk_time t).
Proof.
  intros Hl Hds Ht.
  assert (Hsame : handle_detections ds s = s).
  { apply handle_detections_suppressed. rewrite Hl.
    eapply Forall_impl; [exact Hds|]. intros [f d] Hd. cbn [snd] in *.
    simpl. apply Qgtb_false. lra. }
  split; [exact Hsame|]. rewrite Hsame.
  assert (Hdue : alert_due (last_motion_time s) (tk_time t) = true).
  { rewrite Hl. simpl. apply Qgtb_true. lra. }
  rewrite handle_motion_events, handle_motion_last_motion_time, Hdue.
  split; reflexivity.
Qed.

Lemma suppressed_detections_keep_cooldown_witness :
  let s := handle_motion 0%nat true (sample_tick None 100%Q true)
             initial_globals in
  let ds := [(0%nat, sample_tick None 102%Q true);
             (0%nat, sample_tick None 104%Q true)] in
  let t := sample_tick None 106%Q true in
  handle_detections ds s = s
  /\ last_motion_time (handle_motion 0%nat true t (handle_detections ds s))
     = Some 106%Q.
Proof.
  intros s ds t.
  assert (Hl : last_motion_time s = Some 100%Q) by reflexivity.
  assert (Hds : Forall (fun d => (tk_time d.2 <= 100 + 5)%Q) ds).
  { repeat constructor; simpl; unfold Qle; simpl; lia. }
  assert (Ht : (100 + 5 < tk_time t)%Q) by (unfold Qlt; simpl; lia).
  destruct (suppressed_detections_keep_cooldown ds 0%nat t s 100%Q Hl Hds Ht)
    as (Hsame & _ & Hlast).
  split; [exact Hsame | exact Hlast].
Defined.

(** ** The motion mask *)

Lemma absdiff_comm (a b : Gray) : absdiff a b = absdiff b a.
Proof.
  unfold absdiff. revert b.
  induction a as [|ra a IH]; intros [|rb b]; simpl; try reflexivity.
  f_equal; [|apply IH].
  revert rb. induction ra as [|x ra IHr]; intros [|y rb]; simpl;
    try reflexivity.
  f_equal; [lia | apply IHr].
Qed.

(** X6. The detector does not depend on the order of its two frames. *)
Theorem detect_motion_symmetric (cv : Cv2) (frame1 frame2 : Frame) :
  detect_motion cv frame1 frame2 = detect_motion cv frame2 frame1.
Proof.
  unfold detect_motion.
  rewrite (absdiff_comm (cvtColor_BGR2GRAY cv frame1)). reflexivity.
Qed.

Lemma px_lookup (g : Gray) (r c : Z) (row : list Z) (v : Z) :
  0 <= r -> 0 <= c ->
  g !! Z.to_nat r = Some row -> row !! Z.to_nat c = Some v ->
  px g r c = v.
Proof.
  intros Hr Hc Hrow Hv. unfold px.
  destruct (Z.ltb_spec r 0); [lia|]. destruct (Z.ltb_spec c 0); [lia|].
  simpl. rewrite Hrow. simpl. rewrite Hv. reflexivity.
Qed.

Lemma px_inside (h w : nat) (g : Gray) (r c : Z) :
  rect h w g -> inside h w r c ->
  exists (row : list Z) (v : Z),
    g !! Z.to_nat r = Some row /\ row !! Z.to_nat c = Some v
    /\ px g r c = v.
Proof.
  intros [Hh Hw] [Hr Hc].
  destruct (lookup_lt_is_Some_2 g (Z.to_nat r)) as [row Hrow]; [lia|].
  assert (Hlen : length row = w).
  { rewrite Forall_lookup in Hw. exact (Hw _ _ Hrow). }
  destruct (lookup_lt_is_Some_2 row (Z.to_nat c)) as [v Hv]; [lia|].
  exists row, v. split; [exact Hrow|]. split; [exact Hv|].
  apply (px_lookup g r c row v); [lia | lia | exact Hrow | exact Hv].
Qed.

Lemma px_outside (h w : nat) (g : Gray) (r c : Z) :
  rect h w g -> ~ inside h w r c -> px g r c = 0.
Proof.
  intros [Hh Hw] Hout. unfold px.
  destruct (Z.ltb_spec r 0); [reflexivity|].
  destruct (Z.ltb_spec c 0); [reflexivity|]. simpl.
  destruct (g !! Z.to_nat r) as [row|] eqn:Hrow; simpl; [|reflexivity].
  assert (Hlen : length row = w).
  { rewrite Forall_lookup in Hw. exact (Hw _ _ Hrow). }
  apply lookup_lt_Some in Hrow.
  destruct (row !! Z.to_nat c) as [v|] eqn:Hv; simpl; [|reflexivity].
  apply lookup_lt_Some in Hv. exfalso. apply Hout. unfold inside. lia.
Qed.

Lemma px_binary (g : Gray) (r c : Z) :
  binary g -> px g r c = 0 \/ px g r c = 255.
Proof.
  intros Hg. unfold px. destruct ((r <? 0) || (c <? 0)); [left; reflexivity|].
  destruct (g !! Z.to_nat r) as [row|] eqn:Hrow; simpl;
    [|left; reflexivity].
  destruct (row !! Z.to_nat c) as [v|] eqn:Hv; simpl; [|left; reflexivity].
  unfold binary in Hg. rewrite Forall_lookup in Hg.
  specialize (Hg _ _ Hrow). rewrite Forall_lookup in Hg.
  exact (Hg _ _ Hv).
Qed.

Lemma max_binary (l : list Z) :
  Forall (fun v => v = 0 \/ v = 255) l ->
  (foldr Z.max 0 l = 0 \/ foldr Z.max 0 l = 255)
  /\ (foldr Z.max 0 l = 255 <-> Exists (eq 255) l).
Proof.
  induction 1 as [|v l Hv _ [IH1 IH2]]; simpl.
  - split; [left; reflexivity|]. split; [discriminate|].
    intros H. inversion H.
  - split; [lia|]. rewrite Exists_cons. rewrite <- IH2. lia.
Qed.

Lemma window3_binary (g : Gray) (r c : Z) :
  binary g ->
  Forall (fun v => v = 0 \/ v = 255)
    (map (fun d : Z * Z => px g (r + d.1) (c + d.2)) kernel3).
Proof.
  intros Hg. apply Forall_map, Forall_forall. intros d _.
  apply px_binary, Hg.
Qed.

Lemma kernel3_spec (dr dc : Z) :
  In (dr, dc) kernel3 <-> (-1 <= dr <= 1 /\ -1 <= dc <= 1).
Proof.
  unfold kernel3. simpl. split.
  - intros H.
    repeat (destruct H as [H | H]; [injection H as <- <-; lia|]).
    contradiction.
  - intros [Hr Hc].
    assert (Er : dr = -1 \/ dr = 0 \/ dr = 1) by lia.
    assert (Ec : dc = -1 \/ dc = 0 \/ dc = 1) by lia.
    destruct Er as [-> | [-> | ->]]; destruct Ec as [-> | [-> | ->]]; tauto.
Qed.

Lemma rect_dilate3 (h w : nat) (g : Gray) :
  rect h w g -> rect h w (dilate3 g).
Proof.
  intros [Hh Hw]. unfold dilate3. split.
  - rewrite length_imap. exact Hh.
  - apply Forall_lookup. intros r row' Hr.
    apply list_lookup_imap_Some in Hr as (row & Hrow & ->).
    rewrite length_imap. rewrite Forall_lookup in Hw. exact (Hw _ _ Hrow).
Qed.

Lemma binary_dilate3 (g : Gray) : binary g -> binary (dilate3 g).
Proof.
  intros Hg. unfold binary, dilate3.
  apply Forall_lookup. intros r row' Hr.
  apply list_lookup_imap_Some in Hr as (row & _ & ->).
  apply Forall_lookup. intros c v Hc.
  apply list_lookup_imap_Some in Hc as (x & _ & ->).
  apply (max_binary _ (window3_binary g _ _ Hg)).
Qed.

Lemma px_dilate3_inside (h w : nat) (g : Gray) (r c : Z) :
  rect h w g -> inside h w r c ->
  px (dilate3 g) r c
  = foldr Z.max 0 (map (fun d : Z * Z => px g (r + d.1) (c + d.2)) kernel3).
Proof.
  intros Hg Hin.
  destruct (px_inside h w g r c Hg Hin) as (row & v & Hrow & Hv & _).
  destruct Hin as [Hr Hc].
  apply (px_lookup (dilate3 g) r c
           (imap (fun c0 _ =>
              foldr Z.max 0
                (map (fun d : Z * Z =>
                        px g (Z.of_nat (Z.to_nat r) + d.1)
                          (Z.of_nat c0 + d.2)) kernel3)) row));
    [lia | lia | |].
  - unfold dilate3. apply list_lookup_imap_Some. exists row.
    split; [exact Hrow | reflexivity].
  - apply list_lookup_imap_Some. exists v. split; [exact Hv|].
    rewrite !Z2Nat.id by lia. reflexivity.
Qed.

Lemma dilate3_set (h w : nat) (g : Gray) (r c : Z) :
  rect h w g -> binary g ->
  px (dilate3 g) r c = 255
  <-> inside h w r c
      /\ exists dr dc : Z,
           -1 <= dr <= 1 /\ -1 <= dc <= 1 /\ px g (r + dr) (c + dc) = 255.
Proof.
  intros Hrect Hbin. split.
  - intros Hset.
    assert (Hin : inside h w r c).
    { destruct (decide (inside h w r c)) as [Hin|Hout]; [exact Hin|].
      rewrite (px_outside h w _ r c (rect_dilate3 h w g Hrect) Hout) in Hset.
      discriminate. }
    split; [exact Hin|].
    rewrite (px_dilate3_inside h w g r c Hrect Hin) in Hset.
    apply (max_binary _ (window3_binary g r c Hbin)) in Hset.
    apply Exists_exists in Hset as (v & Hv & <-).
    apply list_elem_of_fmap in Hv as ([dr dc] & Hpx & Hd).
    apply list_elem_of_In, kernel3_spec in Hd. exists dr, dc.
    cbn [fst snd] in Hpx.
    split; [lia|]. split; [lia|]. symmetry. exact Hpx.
  - intros (Hin & dr & dc & Hdr & Hdc & Hpx).
    rewrite (px_dilate3_inside h w g r c Hrect Hin).
    apply (max_binary _ (window3_binary g r c Hbin)).
    apply Exists_exists. exists (px g (r + dr) (c + dc)).
    split; [|symmetry; exact Hpx].
    apply list_elem_of_fmap. exists (dr, dc).
    split; [reflexivity|]. apply list_elem_of_In, kernel3_spec. lia.
Qed.

Lemma dilate2_set (h w : nat) (g : Gray) (r c : Z) :
  rect h w g -> binary g ->
  px (dilate g 2) r c = 255
  <-> inside h w r c
      /\ exists dr dc : Z,
           -2 <= dr <= 2 /\ -2 <= dc <= 2 /\ px g (r + dr) (c + dc) = 255.
Proof.
  intros Hrect Hbin.
  change (dilate g 2) with (dilate3 (dilate3 g)).
  rewrite (dilate3_set h w (dilate3 g) r c
             (rect_dilate3 h w g Hrect) (binary_dilate3 g Hbin)).
  split.
  - intros (Hin & dr1 & dc1 & Hr1 & Hc1 & Hset). split; [exact Hin|].
    apply (dilate3_set h w g _ _ Hrect Hbin) in Hset
      as (_ & dr2 & dc2 & Hr2 & Hc2 & Hset).
    exists (dr1 + dr2), (dc1 + dc2).
    split; [lia|]. split; [lia|]. rewrite !Z.add_assoc. exact Hset.
  - intros (Hin & dr & dc & Hdr & Hdc & Hset). split; [exact Hin|].
    assert (Hfar : inside h w (r + dr) (c + dc)).
    { destruct (decide (inside h w (r + dr) (c + dc))) as [H|H]; [exact H|].
      rewrite (px_outside h w g _ _ Hrect H) in Hset. discriminate. }
    exists (Z.max (-1) (Z.min 1 dr)), (Z.max (-1) (Z.min 1 dc)).
    split; [lia|]. split; [lia|].
    apply (dilate3_set h w g _ _ Hrect Hbin). split.
    + unfold inside in *. lia.
    + exists (dr - Z.max (-1) (Z.min 1 dr)), (dc - Z.max (-1) (Z.min 1 dc)).
      split; [lia|]. split; [lia|].
      replace (r + Z.max (-1) (Z.min 1 dr) + (dr - Z.max (-1) (Z.min 1 dr)))
        with (r + dr) by lia.
      replace (c + Z.max (-1) (Z.min 1 dc) + (dc - Z.max (-1) (Z.min 1 dc)))
        with (c + dc) by lia.
      exact Hset.
Qed.

Lemma pixel_at_lookup (f : Frame) (r c : nat) (row : list Pixel)
    (p : Pixel) :
  f !! r = Some row -> row !! c = Some p ->
  pixel_at f (Z.of_nat r) (Z.of_nat c) = Some p.
Proof.
  intros Hrow Hp. unfold pixel_at.
  destruct (Z.ltb_spec (Z.of_nat r) 0); [lia|].
  destruct (Z.ltb_spec (Z.of_nat c) 0); [lia|].
  simpl. rewrite !Nat2Z.id, Hrow. simpl. exact Hp.
Qed.

Lemma changed_binary (cv : Cv2) (f1 f2 : Frame) :
  binary (zip_with (zip_with (spec_changed cv)) f1 f2).
Proof.
  unfold binary. apply Forall_lookup. intros r row Hr.
  apply lookup_zip_with_Some in Hr as (r1 & r2 & -> & _ & _).
  apply Forall_lookup. intros c v Hc.
  apply lookup_zip_with_Some in Hc as (p & q & -> & _ & _).
  unfold spec_changed. destruct (25 <? _); [right | left]; reflexivity.
Qed.

Lemma changed_rect (cv : Cv2) (h w : nat) (f1 f2 : Frame) :
  rect h w f1 -> rect h w f2 ->
  rect h w (zip_with (zip_with (spec_changed cv)) f1 f2).
Proof.
  intros [Hh1 Hw1] [Hh2 Hw2]. split.
  - rewrite length_zip_with. lia.
  - apply Forall_lookup. intros r row Hr.
    apply lookup_zip_with_Some in Hr as (r1 & r2 & -> & Hr1 & Hr2).
    rewrite Forall_lookup in Hw1, Hw2.
    rewrite length_zip_with, (Hw1 _ _ Hr1), (Hw2 _ _ Hr2). lia.
Qed.

Lemma px_changed (cv : Cv2) (f1 f2 : Frame) (r c : Z) :
  px (zip_with (zip_with (spec_changed cv)) f1 f2) r c = 255
  <-> exists p q : Pixel,
        pixel_at f1 r c = Some p /\ pixel_at f2 r c = Some q
        /\ 25 < Z.abs (luma cv p - luma cv q).
Proof.
  unfold px, pixel_at, Gray, Frame in *.
  destruct ((r <? 0) || (c <? 0)).
  { split; [discriminate|]. intros (p & q & H & _). discriminate H. }
  rewrite lookup_zip_with.
  destruct (f1 !! Z.to_nat r) as [r1|]; cbn.
  2:{ split; [discriminate|]. intros (p & q & H & _). discriminate H. }
  destruct (f2 !! Z.to_nat r) as [r2|]; cbn.
  2:{ split; [discriminate|]. intros (p & q & _ & H & _). discriminate H. }
  rewrite lookup_zip_with.
  destruct (r1 !! Z.to_nat c) as [p|]; cbn.
  2:{ split; [discriminate|]. intros (p & q & H & _). discriminate H. }
  destruct (r2 !! Z.to_nat c) as [q|]; cbn.
  2:{ split; [discriminate|]. intros (p' & q' & _ & H & _). discriminate H. }
  unfold spec_changed. split.
  - intros H. exists p, q. split; [reflexivity|]. split; [reflexivity|].
    destruct (Z.ltb_spec 25 (Z.abs (luma cv p - luma cv q)));
      [assumption | discriminate].
  - intros (p' & q' & Hp & Hq & Hlt).
    injection Hp as <-. injection Hq as <-.
    destruct (Z.ltb_spec 25 (Z.abs (luma cv p - luma cv q)));
      [reflexivity | lia].
Qed.

(** X7. For two frames of the same size, the mask that the detector
    returns has that size and holds only 0 and 255. *)
Theorem motion_mask_shape (cv : Cv2) (h w : nat) (frame1 frame2 : Frame) :
  rect h w frame1 -> rect h w frame2 ->
  rect h w (detect_motion cv frame1 frame2).1.2
  /\ binary (detect_motion cv frame1 frame2).1.2.
Proof.
  intros H1 H2. rewrite detect_motion_mask. unfold spec_mask. split.
  - apply rect_dilate3, rect_dilate3, changed_rect; assumption.
  - apply binary_dilate3, binary_dilate3, changed_binary.
Qed.

(** X8. For two frames of the same size, a pixel of the returned mask is
    set exactly when it lies in the image and, at most two rows and two
    columns away from it, the intensities of the two frames differ by more
    than 25. *)
Theorem motion_mask_neighbourhood (cv : Cv2) (h w : nat)
    (frame1 frame2 : Frame) (r c : Z) :
  rect h w frame1 -> rect h w frame2 ->
  px (detect_motion cv frame1 frame2).1.2 r c = 255
  <-> inside h w r c
      /\ exists (r' c' : Z) (p q : Pixel),
           r - 2 <= r' <= r + 2 /\ c - 2 <= c' <= c + 2
           /\ pixel_at frame1 r' c' = Some p
           /\ pixel_at frame2 r' c' = Some q
           /\ 25 < Z.abs (luma cv p - luma cv q).
Proof.
  intros H1 H2. rewrite detect_motion_mask. unfold spec_mask.
  change (dilate3 (dilate3 ?g)) with (dilate g 2).
  rewrite (dilate2_set h w _ r c (changed_rect cv h w _ _ H1 H2)
             (changed_binary cv frame1 frame2)).
  split.
  - intros (Hin & dr & dc & Hdr & Hdc & Hset). split; [exact Hin|].
    apply px_changed in Hset as (p & q & Hp & Hq & Hlt).
    exists (r + dr), (c + dc), p, q.
    split; [lia|]. split; [lia|]. split; [exact Hp|].
    split; [exact Hq | exact Hlt].
  - intros (Hin & r' & c' & p & q & Hr & Hc & Hp & Hq & Hlt).
    split; [exact Hin|]. exists (r' - r), (c' - c).
    split; [lia|]. split; [lia|].
    replace (r + (r' - r)) with r' by lia.
    replace (c + (c' - c)) with c' by lia.
    apply px_changed. exists p, q.
    split; [exact Hp|]. split; [exact Hq | exact Hlt].
Qed.

(** X9. When no pixel differs in intensity by more than 25 between the two
    frames, the detector reports no motion, no contour and area 0, for
    every contour extraction that finds nothing in a blank mask. *)
Theorem detect_motion_quiet (cv : Cv2) (frame1 frame2 : Frame) :
  findContours_blank cv ->
  (forall (r c : Z) (p q : Pixel),
     pixel_at frame1 r c = Some p -> pixel_at frame2 r c = Some q ->
     Z.abs (luma cv p - luma cv q) <= 25) ->
  (detect_motion cv frame1 frame2).1.1 = false
  /\ (detect_motion cv frame1 frame2).2 = []
  /\ total_area cv frame1 frame2 = 0%Q.
Proof.
  intros Hcv Hquiet.
  assert (Hblank : blank (zip_with (zip_with (spec_changed cv))
                            frame1 frame2)).
  { unfold blank. apply Forall_lookup. intros r row Hr.
    apply lookup_zip_with_Some in Hr as (r1 & r2 & -> & Hr1 & Hr2).
    apply Forall_lookup. intros c v Hc.
    apply lookup_zip_with_Some in Hc as (p & q & -> & Hp & Hq).
    unfold spec_changed.
    assert (Hle := Hquiet _ _ p q (pixel_at_lookup _ _ _ _ _ Hr1 Hp)
                     (pixel_at_lookup _ _ _ _ _ Hr2 Hq)).
    destruct (Z.ltb_spec 25 (Z.abs (luma cv p - luma cv q)));
      [lia | reflexivity]. }
  unfold total_area, detect_motion. cbn [fst snd].
  rewrite threshold_absdiff.
  rewrite (Hcv _ (dilate_blank _ 2 Hblank)). repeat split.
Qed.

Lemma rect_solid (h w : nat) (p : Pixel) : rect h w (Sample.solid h w p).
Proof.
  unfold rect, Sample.solid. split; [apply repeat_length|].
  apply Forall_forall. intros row Hrow.
  apply list_elem_of_In, repeat_spec in Hrow. subst row.
  apply repeat_length.
Qed.

Lemma rect_with_rectangle (h w r0 r1 c0 c1 : nat) :
  rect h w (Sample.with_rectangle h w r0 r1 c0 c1).
Proof.
  unfold rect, Sample.with_rectangle. split.
  - rewrite length_map, length_seq. reflexivity.
  - apply Forall_forall. intros row Hrow.
    apply list_elem_of_fmap in Hrow as (r & -> & _).
    rewrite length_map, length_seq. reflexivity.
Qed.

Lemma motion_mask_shape_witness :
  rect 10 10 (detect_motion Sample.cv (Sample.solid 10 10 (0, 0, 0))
                (Sample.with_rectangle 10 10 4 6 4 6)).1.2.
Proof.
  apply (motion_mask_shape Sample.cv 10 10 _ _
           (rect_solid 10 10 (0, 0, 0))
           (rect_with_rectangle 10 10 4 6 4 6)).
Defined.

Lemma motion_mask_neighbourhood_witness :
  px (detect_motion Sample.cv (Sample.solid 10 10 (0, 0, 0))
        (Sample.with_rectangle 10 10 4 6 4 6)).1.2 2 2 = 255.
Proof.
  apply (motion_mask_neighbourhood Sample.cv 10 10 _ _ 2 2
           (rect_solid 10 10 (0, 0, 0))
           (rect_with_rectangle 10 10 4 6 4 6)).
  split; [unfold inside; lia|].
  exists 4, 4, (0, 0, 0), (255, 255, 255).
  split; [lia|]. split; [lia|]. split; [reflexivity|].
  split; [reflexivity|]. vm_compute. reflexivity.
Defined.

Lemma detect_motion_quiet_witness :
  (detect_motion Sample.cv (Sample.solid 2 2 (10, 10, 10))
     (Sample.solid 2 2 (30, 30, 30))).1.1 = false.
Proof.
  apply (detect_motion_quiet Sample.cv (Sample.solid 2 2 (10, 10, 10))
           (Sample.solid 2 2 (30, 30, 30)) Sample_findContours_blank).
  intros r c p q Hp Hq. unfold pixel_at in Hp, Hq.
  destruct ((r <? 0) || (c <? 0)); [discriminate|].
  destruct (Z.to_nat r) as [|[|?]]; [| |discriminate];
    (destruct (Z.to_nat c) as [|[|?]]; [| |discriminate]);
    injection Hp as <-; injection Hq as <-; vm_compute; discriminate.
Defined.

(** ** The course of the loop *)

(** Observations made after the loop has ended are ignored; as long as it
    runs, a longer series of passes continues the shorter one. *)
Lemma frames_loop_app (cv : Cv2) (ticks more : list Tick)
    (prev : option loc) (s : Globals) :
  frames_loop cv (ticks ++ more) prev s
  = match frames_loop cv ticks prev s with
    | (Running prev', s') => frames_loop cv more prev' s'
    | ended => ended
    end.
Proof.
  revert prev s. induction ticks as [|t rest IH]; intros prev s; simpl.
  - reflexivity.
  - destruct (loop_body cv prev t s) as [[prev'| |e] s'].
    + apply IH.
    + reflexivity.
    + reflexivity.
Qed.

Lemma loop_body_next (cv : Cv2) (prev : loc) (t : Tick) (s : Globals)
    (content : Frame) :
  tk_read t = Some content ->
  exists (prev' : loc) (s' : Globals),
    loop_body cv (Some prev) t s = (Next (Some prev'), s')
    /\ frame_count s' = frame_count s + 1.
Proof.
  intros Hr.
  destruct (Z.eq_dec (frame_count s mod 2) 0) as [Heven|Hodd].
  - destruct (detect_motion cv (load prev (alloc content s).2) content)
      as [[motion thresh] contours] eqn:Hd.
    rewrite (loop_body_processed _ _ _ _ _ _ _ _ Hr Heven Hd).
    eexists _, _. split; reflexivity.
  - rewrite (loop_body_skipped _ _ _ _ _ Hr Hodd).
    eexists _, _. split; reflexivity.
Qed.

(** X10. Once the first read has given a previous frame, the loop goes on
    as long as the reads succeed, counting each pass in [frame_count], and
    it returns as soon as one read fails. *)
Theorem loop_runs_while_reads_succeed (cv : Cv2) (ticks : list Tick)
    (prev : loc) (s : Globals) :
  (Forall (fun t => tk_read t <> None) ticks ->
   exists (prev' : loc) (s' : Globals),
     frames_loop cv ticks (Some prev) s = (Running (Some prev'), s')
     /\ frame_count s' = frame_count s + Z.of_nat (length ticks))
  /\ (Exists (fun t => tk_read t = None) ticks ->
      (frames_loop cv ticks (Some prev) s).1 = Returned).
Proof.
  revert prev s. induction ticks as [|t rest IH]; intros prev s.
  - split.
    + intros _. exists prev, s. split; [reflexivity | simpl; lia].
    + intros H. inversion H.
  - destruct (tk_read t) as [content|] eqn:Hr.
    + destruct (loop_body_next cv prev t s content Hr)
        as (prev' & s' & Hbody & Hcount).
      cbn [frames_loop]. rewrite Hbody.
      destruct (IH prev' s') as [IHrun IHend]. split.
      * intros Hall. apply Forall_cons in Hall as [_ Hall].
        destruct (IHrun Hall) as (p & s'' & Hloop & Hc).
        exists p, s''. split; [exact Hloop|].
        rewrite Hc, Hcount. cbn [length]. lia.
      * intros Hex. apply Exists_cons in Hex as [Hex | Hex];
          [congruence | exact (IHend Hex)].
    + cbn [frames_loop]. rewrite (loop_body_break cv _ t s Hr). split.
      * intros Hall. apply Forall_cons in Hall as [Hne _]. contradiction.
      * intros _. reflexivity.
Qed.

Lemma loop_runs_while_reads_succeed_witness :
  let f := Sample.solid 4 4 (0, 0, 0) in
  let good := sample_tick (Some f) 100%Q true in
  let failed := sample_tick None 101%Q true in
  let s := (alloc f initial_globals).2 in
  (exists (prev' : loc) (s' : Globals),
     frames_loop Sample.cv [good; good; good] (Some 0%nat) s
     = (Running (Some prev'), s')
     /\ frame_count s' = frame_count s + 3)
  /\ (frames_loop Sample.cv [good; failed; good] (Some 0%nat) s).1
     = Returned.
Proof.
  intros f good failed s. split.
  - apply (proj1 (loop_runs_while_reads_succeed Sample.cv [good; good; good]
                    0%nat s)).
    repeat constructor; discriminate.
  - apply (proj2 (loop_runs_while_reads_succeed Sample.cv
                    [good; failed; good] 0%nat s)).
    apply Exists_cons_tl, Exists_cons_hd. reflexivity.
Defined.

(** X11. When the read that should give the previous frame fails and a
    later read succeeds, the first examined pass raises inside
    [detect_motion]: nothing is published, no event is recorded, and the
    rest of the passes is never run. *)
Theorem first_read_failure_raises (cv : Cv2) (t : Tick) (rest : list Tick)
    (s : Globals) (content : Frame) :
  tk_read t = Some content ->
  frame_count s mod 2 = 0 ->
  let r := frames_loop cv (t :: rest) None s in
  r.1 = Raised "cv2.error"
  /\ output_frame r.2 = output_frame s
  /\ motion_events r.2 = motion_events s
  /\ frame_count r.2 = frame_count s.
Proof.
  intros Hr Heven r. subst r. cbn [frames_loop].
  rewrite (loop_body_no_prev cv t s content Hr Heven).
  repeat split.
Qed.

Lemma first_read_failure_raises_witness :
  let f := Sample.solid 4 4 (0, 0, 0) in
  let good := sample_tick (Some f) 100%Q true in
  (generate_frames Sample.cv (Opened {| isOpened := true |}) None
     [good; good] initial_globals).1
  = Raised "cv2.error".
Proof.
  intros f good.
  apply (first_read_failure_raises Sample.cv good [good]
           (set_camera (Some {| isOpened := true |}) initial_globals) f
           eq_refl eq_refl).
Defined.

Lemma handle_motion_motion_detected (frame : loc) (motion : bool) (t : Tick)
    (s : Globals) :
  motion_detected (handle_motion frame motion t s)
  = if motion && alert_due (last_motion_time s) (tk_time t)
    then true
    else motion_detected s.
Proof.
  unfold handle_motion.
  destruct motion; [|reflexivity].
  destruct (alert_due _ _); [|reflexivity].
  unfold new_alert, imwrite, start_thread, new_event. simpl.
  destruct (tk_imwrite_ok t); simpl;
    destruct (Nat.ltb_spec 20 (S (length (motion_events s))));
    reflexivity.
Qed.

(** What a pass that examines its frame does to the alert state, in terms
    of the state before the pass. *)
Lemma loop_body_processed_fields (cv : Cv2) (prev : loc) (t : Tick)
    (s : Globals) (content : Frame) :
  tk_read t = Some content ->
  frame_count s mod 2 = 0 ->
  let raise :=
    (detect_motion cv (load prev (alloc content s).2) content).1.1
    && alert_due (last_motion_time s) (tk_time t) in
  let s' := (loop_body cv (Some prev) t s).2 in
  motion_events s'
    = (if raise then new_event t :: take 19 (motion_events s)
       else motion_events s)
  /\ files s'
     = (if raise && tk_imwrite_ok t
        then <[path (new_event t) := content]> (files s)
        else files s)
  /\ threads s'
     = (if raise
        then threads s
             ++ [EmailAlert (path (new_event t));
                 SmsAlert ("http://yourdomain.com/static/captures/"
                           +:+ image (new_event t))]
        else threads s)
  /\ last_motion_time s'
     = (if raise then Some (tk_time t) else last_motion_time s)
  /\ motion_detected s' = (if raise then true else motion_detected s)
  /\ stdout s' = stdout s.
Proof.
  intros Hr Heven raise s'. subst raise s'.
  destruct (detect_motion cv (load prev (alloc content s).2) content)
    as [[motion thresh] contours] eqn:Hd.
  rewrite (loop_body_processed _ _ _ _ _ _ _ _ Hr Heven Hd).
  rewrite publish_eq.
  cbn [fst snd motion_events files threads last_motion_time motion_detected
       stdout set_frame_count set_output_frame set_heap].
  rewrite handle_motion_events, handle_motion_files, handle_motion_threads,
    handle_motion_last_motion_time, handle_motion_motion_detected,
    handle_motion_stdout.
  cbn [motion_events files threads last_motion_time motion_detected stdout
       set_heap].
  assert (Hload : load (length (heap s))
            (set_heap
               (heap s
                ++ [content; content;
                    annotated_frame cv content contours (tk_timestamp t)])
               s) = content).
  { unfold load. cbn [heap set_heap].
    rewrite (lookup_app_r (heap s)) by lia. rewrite Nat.sub_diag.
    reflexivity. }
  rewrite Hload. repeat split.
Qed.

Lemma loop_body_unprocessed_fields (cv : Cv2) (prev : option loc)
    (t : Tick) (s : Globals) :
  tk_read t = None \/ frame_count s mod 2 <> 0 \/ prev = None ->
  let s' := (loop_body cv prev t s).2 in
  motion_events s' = motion_events s
  /\ files s' = files s
  /\ threads s' = threads s
  /\ last_motion_time s' = last_motion_time s
  /\ motion_detected s' = motion_detected s
  /\ stdout s' = stdout s.
Proof.
  intros Hcase s'. subst s'.
  destruct (tk_read t) as [content|] eqn:Hr.
  - destruct (Z.eq_dec (frame_count s mod 2) 0) as [Heven|Hodd].
    + destruct Hcase as [H | [H | ->]]; [discriminate | contradiction |].
      rewrite (loop_body_no_prev _ _ _ _ Hr Heven). repeat split.
    + rewrite (loop_body_skipped _ _ _ _ _ Hr Hodd). repeat split.
  - rewrite (loop_body_break _ _ _ _ Hr). repeat split.
Qed.

(** X12. A pass of the loop raises an alert completely or not at all:
    either the log, the written files, the started threads, the time of
    the last alert and the motion flag are all as before, or the event is
    at the head of the log, the cooldown restarts, the flag is set and
    exactly the e-mail and the SMS thread for that event are started. *)
Theorem pass_alert_all_or_nothing (cv : Cv2) (prev : option loc) (t : Tick)
    (s : Globals) :
  let s' := (loop_body cv prev t s).2 in
  (motion_events s' = motion_events s
   /\ files s' = files s
   /\ threads s' = threads s
   /\ last_motion_time s' = last_motion_time s
   /\ motion_detected s' = motion_detected s)
  \/ (motion_events s' = new_event t :: take 19 (motion_events s)
      /\ threads s'
         = threads s
           ++ [EmailAlert (path (new_event t));
               SmsAlert ("http://yourdomain.com/static/captures/"
                         +:+ image (new_event t))]
      /\ last_motion_time s' = Some (tk_time t)
      /\ motion_detected s' = true
      /\ alert_due (last_motion_time s) (tk_time t) = true).
Proof.
  intros s'. subst s'.
  destruct (tk_read t) as [content|] eqn:Hr.
  - destruct (Z.eq_dec (frame_count s mod 2) 0) as [Heven|Hodd].
    + destruct prev as [prev|].
      * destruct (loop_body_processed_fields cv prev t s content Hr Heven)
          as (He & Hf & Ht & Hl & Hm & _).
        destruct ((detect_motion cv (load prev (alloc content s).2)
                     content).1.1); cbn [andb] in *.
        -- destruct (alert_due (last_motion_time s) (tk_time t)).
           ++ right. repeat split; assumption.
           ++ left. repeat split; assumption.
        -- left. repeat split; assumption.
      * left.
        destruct (loop_body_unprocessed_fields cv None t s)
          as (He & Hf & Ht & Hl & Hm & _); [tauto|].
        repeat split; assumption.
    + left.
      destruct (loop_body_unprocessed_fields cv prev t s)
        as (He & Hf & Ht & Hl & Hm & _); [tauto|].
      repeat split; assumption.
  - left.
    destruct (loop_body_unprocessed_fields cv prev t s)
      as (He & Hf & Ht & Hl & Hm & _); [tauto|].
    repeat split; assumption.
Qed.

Lemma loop_body_stdout (cv : Cv2) (prev : option loc) (t : Tick)
    (s : Globals) :
  stdout (loop_body cv prev t s).2 = stdout s.
Proof.
  destruct (tk_read t) as [content|] eqn:Hr.
  - destruct (Z.eq_dec (frame_count s mod 2) 0) as [Heven|Hodd].
    + destruct prev as [prev|].
      * apply (loop_body_processed_fields cv prev t s content Hr Heven).
      * apply (loop_body_unprocessed_fields cv None t s). tauto.
    + apply (loop_body_unprocessed_fields cv prev t s). tauto.
  - apply (loop_body_unprocessed_fields cv prev t s). tauto.
Qed.

(** X13. The loop itself writes nothing to the standard output, whatever
    it observes: a failed read and a snapshot that cannot be written leave
    no line. *)
Theorem frames_loop_silent (cv : Cv2) (ticks : list Tick)
    (prev : option loc) (s : Globals) :
  stdout (frames_loop cv ticks prev s).2 = stdout s.
Proof.
  revert prev s. induction ticks as [|t rest IH]; intros prev s; simpl;
    [reflexivity|].
  assert (Hb := loop_body_stdout cv prev t s).
  destruct (loop_body cv prev t s) as [[prev'| |e] s']; simpl in *.
  - rewrite IH. exact Hb.
  - exact Hb.
  - exact Hb.
Qed.

(** ** The array store over a run *)

Lemma loop_body_heap_prefix (cv : Cv2) (prev : option loc) (t : Tick)
    (s : Globals) :
  heap s `prefix_of` heap (loop_body cv prev t s).2.
Proof.
  destruct (tk_read t) as [content|] eqn:Hr.
  - destruct (Z.eq_dec (frame_count s mod 2) 0) as [Heven|Hodd].
    + destruct prev as [prev|].
      * destruct (detect_motion cv (load prev (alloc content s).2) content)
          as [[motion thresh] contours] eqn:Hd.
        rewrite (loop_body_processed _ _ _ _ _ _ _ _ Hr Heven Hd).
        rewrite publish_eq. cbn [snd heap set_frame_count set_output_frame
          set_heap].
        rewrite handle_motion_heap. cbn [heap set_heap].
        rewrite <- app_assoc. apply prefix_app_r. reflexivity.
      * rewrite (loop_body_no_prev _ _ _ _ Hr Heven). simpl.
        apply prefix_app_r. reflexivity.
    + rewrite (loop_body_skipped _ _ _ _ _ Hr Hodd). simpl.
      apply prefix_app_r. reflexivity.
  - rewrite (loop_body_break _ _ _ _ Hr). reflexivity.
Qed.

Lemma frames_loop_heap_prefix (cv : Cv2) (ticks : list Tick)
    (prev : option loc) (s : Globals) :
  heap s `prefix_of` heap (frames_loop cv ticks prev s).2.
Proof.
  revert prev s. induction ticks as [|t rest IH]; intros prev s; simpl;
    [reflexivity|].
  assert (Hb := loop_body_heap_prefix cv prev t s).
  destruct (loop_body cv prev t s) as [[prev'| |e] s']; simpl in *.
  - etransitivity; [exact Hb | apply IH].
  - exact Hb.
  - exact Hb.
Qed.

(** X14. [generate_frames] never changes an array that exists when it is
    called, nor one it has created in an earlier pass: all drawing is done
    on arrays that are new at that moment. *)
Theorem arrays_never_modified (cv : Cv2) (open : OpenResult)
    (first : option Frame) (ticks more : list Tick) (s : Globals) (l : loc)
    (content : Frame) :
  (heap s !! l = Some content ->
   heap (generate_frames cv open first ticks s).2 !! l = Some content)
  /\ (forall prev : option loc,
        heap (frames_loop cv ticks prev s).2 !! l = Some content ->
        heap (frames_loop cv (ticks ++ more) prev s).2 !! l = Some content).
Proof.
  split.
  - intros Hl. eapply prefix_lookup_Some; [exact Hl|].
    unfold generate_frames.
    assert (Hstart : forall s0 : Globals,
              heap s0 = heap s ->
              heap s `prefix_of` heap
                (match first with
                 | Some c =>
                   let '(prev_frame, s1) := alloc c s0 in
                   frames_loop cv ticks (Some prev_frame) s1
                 | None => frames_loop cv ticks None s0
                 end).2).
    { intros s0 H0. destruct first as [c|]; simpl.
      - etransitivity; [|apply frames_loop_heap_prefix]. simpl.
        rewrite H0. apply prefix_app_r. reflexivity.
      - etransitivity; [|apply frames_loop_heap_prefix].
        rewrite H0. reflexivity. }
    destruct (camera s) as [cam|].
    + apply Hstart. reflexivity.
    + destruct open as [cam|e].
      * destruct (isOpened cam); cbn [negb].
        -- apply Hstart. reflexivity.
        -- cbn [snd]. rewrite camera_not_available_eq. simpl.
           apply prefix_app_r. reflexivity.
      * cbn [snd]. rewrite camera_not_available_eq. simpl.
        apply prefix_app_r. reflexivity.
  - intros prev Hl. rewrite frames_loop_app.
    destruct (frames_loop cv ticks prev s) as [[prev'| |e] s'];
      cbn [snd] in *; [|exact Hl|exact Hl].
    eapply prefix_lookup_Some; [exact Hl | apply frames_loop_heap_prefix].
Qed.

Lemma arrays_never_modified_witness :
  let f := Sample.solid 4 4 (0, 0, 0) in
  let g := Sample.solid 4 4 (9, 9, 9) in
  let s := (alloc g initial_globals).2 in
  heap (generate_frames Sample.cv (Opened {| isOpened := true |}) (Some f)
          [sample_tick (Some f) 100%Q true] s).2 !! 0%nat
  = Some g.
Proof.
  intros f g s.
  apply (proj1 (arrays_never_modified Sample.cv
                  (Opened {| isOpened := true |}) (Some f)
                  [sample_tick (Some f) 100%Q true] [] s 0%nat g)).
  reflexivity.
Defined.

(** ** Frames that are not examined *)

Lemma loop_body_processed_control (cv : Cv2) (prev : loc) (t : Tick)
    (s : Globals) (content : Frame) :
  tk_read t = Some content ->
  frame_count s mod 2 = 0 ->
  (loop_body cv (Some prev) t s).1 = Next (Some (S (length (heap s)))).
Proof.
  intros Hr Heven.
  destruct (detect_motion cv (load prev (alloc content s).2) content)
    as [[motion thresh] contours] eqn:Hd.
  rewrite (loop_body_processed _ _ _ _ _ _ _ _ Hr Heven Hd). reflexivity.
Qed.

Lemma frames_loop_single (cv : Cv2) (prev prev' : option loc) (t : Tick)
    (s : Globals) :
  (loop_body cv prev t s).1 = Next prev' ->
  frames_loop cv [t] prev s = (Running prev', (loop_body cv prev t s).2).
Proof.
  intros H. cbn [frames_loop].
  destruct (loop_body cv prev t s) as [c s']. cbn [fst snd] in *.
  subst c. reflexivity.
Qed.

Lemma load_after_skipped (prev : loc) (c1 c2 : Frame) (n : Z)
    (s : Globals) :
  (prev < length (heap s))%nat ->
  load prev
    (alloc c2 (set_frame_count n (set_heap (heap s ++ [c1]) s))).2
  = load prev s.
Proof.
  intros Hl. unfold load, alloc. cbn [snd heap set_heap set_frame_count].
  rewrite lookup_app_l by (rewrite length_app; simpl; lia).
  rewrite lookup_app_l by exact Hl. reflexivity.
Qed.

(** X15. A frame read in a pass with an odd [frame_count] is never looked
    at. Whatever it shows, the next pass compares its own frame with the
    frame examined before, and the run readers and the alert state see is
    the same. *)
Theorem skipped_frame_ignored (cv : Cv2) (prev : loc) (t1 t1' t2 : Tick)
    (s : Globals) (c1 c1' : Frame) :
  tk_read t1 = Some c1 ->
  tk_read t1' = Some c1' ->
  frame_count s mod 2 = 1 ->
  (prev < length (heap s))%nat ->
  output_frame_allocated s ->
  let r := frames_loop cv [t1; t2] (Some prev) s in
  let r' := frames_loop cv [t1'; t2] (Some prev) s in
  r.1 = r'.1
  /\ latest r.2 = latest r'.2
  /\ motion_events r.2 = motion_events r'.2
  /\ files r.2 = files r'.2
  /\ threads r.2 = threads r'.2
  /\ last_motion_time r.2 = last_motion_time r'.2.
Proof.
  intros Hr1 Hr1' Hodd Hprev Hout r r'. subst r r'.
  assert (Hne : frame_count s mod 2 <> 0) by lia.
  change (frames_loop cv [t1; t2] (Some prev) s)
    with (match loop_body cv (Some prev) t1 s with
          | (Next p, s1) => frames_loop cv [t2] p s1
          | (Break, s1) => (Returned, s1)
          | (Raise e, s1) => (Raised e, s1)
          end).
  change (frames_loop cv [t1'; t2] (Some prev) s)
    with (match loop_body cv (Some prev) t1' s with
          | (Next p, s1) => frames_loop cv [t2] p s1
          | (Break, s1) => (Returned, s1)
          | (Raise e, s1) => (Raised e, s1)
          end).
  rewrite (loop_body_skipped _ _ _ _ _ Hr1 Hne),
    (loop_body_skipped _ _ _ _ _ Hr1' Hne).
  set (s1 := set_frame_count (frame_count s + 1)
               (set_heap (heap s ++ [c1]) s)).
  set (s1' := set_frame_count (frame_count s + 1)
                (set_heap (heap s ++ [c1']) s)).
  assert (Hlat : latest s1 = latest s /\ latest s1' = latest s).
  { split; [apply (latest_alloc c1 s Hout) | apply (latest_alloc c1' s Hout)]. }
  destruct (tk_read t2) as [c2|] eqn:Hr2.
  - assert (Heven : (frame_count s + 1) mod 2 = 0).
    { rewrite Z.add_mod, Hodd by lia. reflexivity. }
    assert (Hc := loop_body_processed_control cv prev t2 s1 c2 Hr2 Heven).
    assert (Hc' := loop_body_processed_control cv prev t2 s1' c2 Hr2 Heven).
    rewrite (frames_loop_single _ _ _ _ _ Hc),
      (frames_loop_single _ _ _ _ _ Hc').
    cbn [fst snd].
    assert (Hlen : length (heap s1) = length (heap s1')).
    { subst s1 s1'. cbn [heap set_heap set_frame_count].
      rewrite !length_app. reflexivity. }
    split; [rewrite Hlen; reflexivity|].
    assert (Hpub := loop_body_latest_published cv prev t2 s1 c2 Hr2 Heven).
    assert (Hpub' := loop_body_latest_published cv prev t2 s1' c2 Hr2 Heven).
    destruct (loop_body_processed_fields cv prev t2 s1 c2 Hr2 Heven)
      as (He & Hf & Ht & Hl & _).
    destruct (loop_body_processed_fields cv prev t2 s1' c2 Hr2 Heven)
      as (He' & Hf' & Ht' & Hl' & _).
    subst s1 s1'.
    rewrite (load_after_skipped prev c1 c2 _ s Hprev) in *.
    rewrite (load_after_skipped prev c1' c2 _ s Hprev) in *.
    cbn [motion_events files threads last_motion_time set_frame_count
         set_heap] in *.
    rewrite Hpub, Hpub', He, He', Hf, Hf', Ht, Ht', Hl, Hl'.
    repeat split.
  - cbn [frames_loop]. rewrite !(loop_body_break _ _ _ _ Hr2).
    cbn [fst snd]. destruct Hlat as [-> ->]. repeat split.
Qed.

Lemma skipped_frame_ignored_witness :
  let dark := Sample.solid 4 4 (0, 0, 0) in
  let bright := Sample.solid 4 4 (255, 255, 255) in
  let s := set_frame_count 1 (alloc dark initial_globals).2 in
  let t2 := sample_tick (Some dark) 101%Q true in
  latest (frames_loop Sample.cv [sample_tick (Some dark) 100%Q true; t2]
            (Some 0%nat) s).2
  = latest (frames_loop Sample.cv [sample_tick (Some bright) 100%Q true; t2]
              (Some 0%nat) s).2.
Proof.
  intros dark bright s t2.
  assert (Hout : output_frame_allocated s) by (intros l Hl; discriminate Hl).
  refine (proj1 (proj2 (skipped_frame_ignored Sample.cv 0%nat
                          (sample_tick (Some dark) 100%Q true)
                          (sample_tick (Some bright) 100%Q true) t2 s
                          dark bright eq_refl eq_refl eq_refl _ Hout))).
  simpl. lia.
Defined.

(** ** More on the settings *)

Lemma form_truthy_get (form : gmap string string) (key : string) :
  form_truthy form key = true -> form_get form key <> "".
Proof.
  unfold form_truthy, form_get.
  destruct (form !! key) as [[|a v]|]; simpl; intros H;
    [discriminate H | discriminate | discriminate H].
Qed.

(** X16. Submitting the same form a second time changes nothing and ends
    the same way. *)
Theorem update_settings_idempotent (py_int : string -> option Z)
    (form : gmap string string) (settings : Settings) :
  update_settings py_int form (update_settings py_int form settings).2
  = update_settings py_int form settings.
Proof.
  unfold update_settings.
  destruct (match form !! "smtp_port" with
            | Some v => py_int v
            | None => Some 587
            end) as [port|]; [|reflexivity].
  destruct (form_truthy form "email_password");
    destruct (form_truthy form "twilio_auth_token"); reflexivity.
Qed.

(** X17. No request empties a stored password or a stored token: what is
    stored afterwards is the old value or a submitted value that is not
    empty. *)
Theorem stored_secrets_never_emptied (py_int : string -> option Z)
    (form : gmap string string) (settings : Settings) :
  (Email.password (email settings) <> "" ->
   Email.password (email (update_settings py_int form settings).2) <> "")
  /\ (Twilio.auth_token (twilio settings) <> "" ->
      Twilio.auth_token (twilio (update_settings py_int form settings).2)
      <> "").
Proof.
  unfold update_settings.
  destruct (match form !! "smtp_port" with
            | Some v => py_int v
            | None => Some 587
            end) as [port|]; [|split; intros H; exact H].
  split; intros H.
  - destruct (form_truthy form "email_password") eqn:Ht; cbn.
    + apply form_truthy_get, Ht.
    + exact H.
  - destruct (form_truthy form "twilio_auth_token") eqn:Ht; cbn.
    + apply form_truthy_get, Ht.
    + exact H.
Qed.

Lemma stored_secrets_never_emptied_witness :
  let before := {| email := Email.set_password "secret"
                              (email initial_settings);
                   twilio := twilio initial_settings |} in
  let form : gmap string string := {["email_password" := ""]} in
  Email.password (email (update_settings Sample.py_int form before).2)
  <> "".
Proof.
  intros before form.
  apply (proj1 (stored_secrets_never_emptied Sample.py_int form before)).
  discriminate.
Defined.

(** X18. The e-mail switch follows the presence of its field, whatever the
    field holds and however the request ends: without the field, e-mail
    alerts do nothing afterwards. The SMS switch is only reached when the
    port field is accepted; when [int] rejects it, the Twilio settings are
    those from before the request. *)
Theorem alert_switches_after_update (py_int : string -> option Z)
    (form : gmap string string) (settings : Settings) :
  let after := (update_settings py_int form settings).2 in
  (form !! "email_enabled" = None ->
   forall (image_path : string) (failure : option string),
     send_email_alert after image_path failure = (false, []))
  /\ (forall v : string,
        form !! "email_enabled" = Some v ->
        Email.enabled (email after) = true)
  /\ (forall v : string,
        form !! "smtp_port" = Some v -> py_int v = None ->
        twilio after = twilio settings)
  /\ (forall port : Z,
        match form !! "smtp_port" with
        | Some v => py_int v
        | None => Some 587
        end = Some port ->
        form !! "twilio_enabled" = None ->
        forall (image_url : string) (failure : option string),
          send_sms_alert after image_url failure = (false, [])).
Proof.
  intros after. subst after. unfold update_settings.
  split; [|split; [|split]].
  - intros Hnone image_path failure. unfold send_email_alert, form_has.
    rewrite Hnone.
    destruct (match form !! "smtp_port" with
              | Some v => py_int v
              | None => Some 587
              end) as [port|]; [|reflexivity].
    destruct (form_truthy form "email_password"); reflexivity.
  - intros v Hv. unfold form_has. rewrite Hv.
    destruct (match form !! "smtp_port" with
              | Some v => py_int v
              | None => Some 587
              end) as [port|]; [|reflexivity].
    destruct (form_truthy form "email_password"); reflexivity.
  - intros v Hv Hint. rewrite Hv, Hint. reflexivity.
  - intros port Hport Hnone image_url failure. rewrite Hport.
    unfold send_sms_alert, form_has. rewrite Hnone.
    destruct (form_truthy form "twilio_auth_token"); reflexivity.
Qed.

Lemma alert_switches_after_update_witness :
  let before := {| email := Email.set_enabled true (email initial_settings);
                   twilio := Twilio.set_enabled true
                               (twilio initial_settings) |} in
  let form : gmap string string := {["smtp_port" := "abc"]} in
  let after := (update_settings Sample.py_int form before).2 in
  send_email_alert after "static/captures/x.jpg" (Some "refused")
  = (false, [])
  /\ twilio after = twilio before.
Proof.
  intros before form after.
  destruct (alert_switches_after_update Sample.py_int form before)
    as (Hoff & _ & Hsms & _).
  split.
  - apply Hoff. vm_compute. reflexivity.
  - apply (Hsms "abc"); vm_compute; reflexivity.
Defined.

(** ** Opening the camera *)

Lemma camera_camera_not_available (cv : Cv2) (s : Globals) :
  camera (camera_not_available cv s) = camera s.
Proof. rewrite camera_not_available_eq. reflexivity. Qed.

(** X19. The camera is opened by the first call only as long as opening
    raises: after an exception the next call of [generate_frames] opens
    again, but once a capture object exists, opened or not, later calls
    never open one and go straight to reading. *)
Theorem camera_opened_at_most_once (cv : Cv2) (first : option Frame)
    (ticks : list Tick) (s : Globals) :
  (forall (cam : Camera) (open open' : OpenResult),
     camera s = Some cam ->
     generate_frames cv open first ticks s
     = generate_frames cv open' first ticks s)
  /\ (camera s = None ->
      camera (generate_frames cv (Opened {| isOpened := false |})
                first ticks s).2
      = Some {| isOpened := false |})
  /\ (forall e : string,
        camera s = None ->
        camera (generate_frames cv (OpenError e) first ticks s).2 = None).
Proof.
  split; [|split].
  - intros cam open open' Hcam. unfold generate_frames. rewrite Hcam.
    reflexivity.
  - intros Hcam. unfold generate_frames. rewrite Hcam. cbn [negb isOpened snd].
    rewrite camera_camera_not_available. reflexivity.
  - intros e Hcam. unfold generate_frames. rewrite Hcam. cbn [snd].
    rewrite camera_camera_not_available. exact Hcam.
Qed.

Lemma camera_opened_at_most_once_witness :
  let f := Sample.solid 4 4 (0, 0, 0) in
  let dead := (generate_frames Sample.cv (Opened {| isOpened := false |})
                 None [] initial_globals).2 in
  camera dead = Some {| isOpened := false |}
  /\ generate_frames Sample.cv (Opened {| isOpened := true |}) None
       [sample_tick None 100%Q true] dead
     = generate_frames Sample.cv (OpenError "busy") None
         [sample_tick None 100%Q true] dead.
Proof.
  intros f dead.
  assert (Hdead : camera dead = Some {| isOpened := false |}).
  { apply (proj1 (proj2 (camera_opened_at_most_once Sample.cv None []
                           initial_globals))).
    reflexivity. }
  split; [exact Hdead|].
  apply (proj1 (camera_opened_at_most_once Sample.cv None
                  [sample_tick None 100%Q true] dead)
           {| isOpened := false |} _ _ Hdead).
Defined.
